(** * theia policy-recommendation run: the job lifecycle of [policyRecommendationRunCmd]

    A shallow embedding of the [RunE] closure of
    [policyRecommendationRunCmd] (package [commands]): flag validation,
    construction of the SparkApplication, submission, the status polling
    loop and the retrieval of the result.

    Go strings are byte strings ([string]); Go's [int] and [int32] flag
    values are integers ([Z]); an [error] is a value of [error]; a call
    that returns [(T, error)] returns a [Result T].

    Go's [time.Parse] is read for the one layout the command uses, in
    [GoTime].

    The file also embeds what stands around the command in the repository:
    the fake S3 and SQS clients and the test logger of the snowflake
    commands, and the way the e2e test reads the job identifier back off
    the command's output. *)

From Stdlib Require Import String Ascii List ZArith Bool Lia DecimalString FinFun.
From Stdlib Require FMapList FMapFacts OrderedTypeEx SetoidList.
Import ListNotations.
Open Scope string_scope.
Open Scope Z_scope.

(** ** Errors and results *)

(** The [error] values the command can return: one it formats itself with
    [fmt.Errorf], the sentinel [wait.ErrWaitTimeout], or an error handed
    back by a callee that lives outside this file. *)
Inductive error : Type :=
| Errorf (msg : string)
| ErrWaitTimeout
| Foreign (msg : string).

(** [err.Error()], what [%v] prints for an error. *)
Definition Error (e : error) : string :=
  match e with
  | Errorf m => m
  | ErrWaitTimeout => "timed out waiting for the condition"
  | Foreign m => m
  end.

Inductive Result (A : Type) : Type :=
| Ok (a : A)
| Err (e : error).
Arguments Ok {A} a.
Arguments Err {A} e.

Definition is_err {A : Type} (r : Result A) : bool :=
  match r with Ok _ => false | Err _ => true end.

Definition rbind {A B : Type} (r : Result A) (k : A -> Result B) : Result B :=
  match r with
  | Ok a => k a
  | Err e => Err e
  end.

(** ** Regular expressions, as [regexp.MatchString] reads them

    The pattern of the command has no flag, so [^] and [$] anchor the match
    at the two ends of the text and a match is a match of the whole string.
    Every class of the pattern holds ASCII characters only, so a byte of a
    multi-byte rune is in none of them, as the rune itself is in none. *)
Module Regexp.

Inductive regex : Type :=
| Eps
| Class (members : string)
| Cat (r1 r2 : regex)
| Alt (r1 r2 : regex)
| Star (r : regex).

(** [r?] and [r+]. *)
Definition Opt (r : regex) : regex := Alt Eps r.
Definition Plus (r : regex) : regex := Cat r (Star r).

Fixpoint mem (c : ascii) (members : string) : bool :=
  match members with
  | EmptyString => false
  | String d rest => Ascii.eqb c d || mem c rest
  end.

Fixpoint nullable (r : regex) : bool :=
  match r with
  | Eps => true
  | Class _ => false
  | Cat r1 r2 => nullable r1 && nullable r2
  | Alt r1 r2 => nullable r1 || nullable r2
  | Star _ => true
  end.

(** The residual of [r] after reading [c]; [Class ""] matches nothing. *)
Fixpoint deriv (c : ascii) (r : regex) : regex :=
  match r with
  | Eps => Class ""
  | Class members => if mem c members then Eps else Class ""
  | Cat r1 r2 =>
      if nullable r1
      then Alt (Cat (deriv c r1) r2) (deriv c r2)
      else Cat (deriv c r1) r2
  | Alt r1 r2 => Alt (deriv c r1) (deriv c r2)
  | Star r1 => Cat (deriv c r1) (Star r1)
  end.

Fixpoint matches (r : regex) (s : string) : bool :=
  match s with
  | EmptyString => nullable r
  | String c rest => matches (deriv c r) rest
  end.

(** The language of a pattern. *)
Inductive Lang : regex -> string -> Prop :=
| LEps : Lang Eps ""
| LClass c members : mem c members = true -> Lang (Class members) (String c "")
| LCat r1 r2 s1 s2 : Lang r1 s1 -> Lang r2 s2 -> Lang (Cat r1 r2) (s1 ++ s2)
| LAltL r1 r2 s : Lang r1 s -> Lang (Alt r1 r2) s
| LAltR r1 r2 s : Lang r2 s -> Lang (Alt r1 r2) s
| LStar0 r : Lang (Star r) ""
| LStarS r s1 s2 : Lang r s1 -> Lang (Star r) s2 -> Lang (Star r) (s1 ++ s2).

(** Every character of [s] is one of [members]. *)
Fixpoint all_in (members : string) (s : string) : bool :=
  match s with
  | EmptyString => true
  | String c rest => mem c members && all_in members rest
  end.

End Regexp.

(** ** Go values the command handles *)

Definition nl : string := String (ascii_of_nat 10) "".
Definition dquote : string := String (ascii_of_nat 34) "".

(** [strconv.Itoa] and [strconv.FormatBool]. *)
Definition Itoa (n : Z) : string := NilZero.string_of_int (Z.to_int n).
Definition FormatBool (b : bool) : string := if b then "true" else "false".

(** A [time.Time] read without a monotonic clock: the seconds elapsed since
    January 1 of year 1, 00:00:00 UTC, and the nanoseconds within the
    second. The zero value of the type is that very instant. *)
Record Time : Type := mkTime { sec : Z; nsec : Z }.

Definition zeroTime : Time := mkTime 0 0.

(** [t.After(u)]. *)
Definition After (t u : Time) : bool :=
  (sec u <? sec t) || ((sec t =? sec u) && (nsec u <? nsec t)).

(** The three calls into Go's libraries whose grammars are their own:
    [time.Parse("2006-01-02 15:04:05", s)], [json.Unmarshal([]byte(s), &l)]
    with [l] a [[]string], and [url.ParseRequestURI(s)]. The command uses
    the parsed list and the parsed URL for nothing but the error. *)
Record Lib : Type := mkLib {
  time_Parse : string -> Result Time;
  json_Unmarshal : string -> Result (list string);
  url_ParseRequestURI : string -> Result unit
}.

(** ** Constants of the command *)

Definition flowVisibilityNS : string := "flow-visibility".

(** The pattern, between [^] and [$], is two groups one after the other:
    [[+-]?[0-9.]+] and then [[eEinumkKMGTP]*[-+]?[0-9]*]. *)
Definition k8sQuantitiesReg : Regexp.regex :=
  Regexp.Cat
    (Regexp.Cat (Regexp.Opt (Regexp.Class "+-"))
                (Regexp.Plus (Regexp.Class "0123456789.")))
    (Regexp.Cat (Regexp.Star (Regexp.Class "eEinumkKMGTP"))
                (Regexp.Cat (Regexp.Opt (Regexp.Class "-+"))
                            (Regexp.Star (Regexp.Class "0123456789")))).

Definition sparkImage : string := "antrea/theia-policy-recommendation:latest".
Definition sparkImagePullPolicy : string := "IfNotPresent".
Definition sparkAppFile : string :=
  "local:///opt/spark/work-dir/policy_recommendation_job.py".
Definition sparkServiceAccount : string := "policy-reco-spark".
Definition sparkVersion : string := "3.1.1".

(** [time.Duration] values, in nanoseconds. *)
Definition Second : Z := 1000000000.
Definition Minute : Z := 60 * Second.
Definition statusCheckPollInterval : Z := 5 * Second.
Definition statusCheckPollTimeout : Z := 60 * Minute.

(** [regexp.MatchString]: the error is that of compiling the pattern, and
    the pattern of the command compiles. *)
Definition MatchString (pattern : Regexp.regex) (s : string) : Result bool :=
  Ok (Regexp.matches pattern s).

(** ** Flags

    The flags [init] declares, with the types it declares them with: a
    lookup by the declared name and type cannot fail. *)
Record Flags : Type := mkFlags {
  flag_type : string;
  flag_limit : Z;
  flag_option : string;
  flag_start_time : string;
  flag_end_time : string;
  flag_ns_allow_list : string;
  flag_rm_labels : bool;
  flag_to_services : bool;
  flag_executor_instances : Z;
  flag_driver_core_request : string;
  flag_driver_memory : string;
  flag_executor_core_request : string;
  flag_executor_memory : string;
  flag_wait : bool;
  flag_clickhouse_endpoint : string;
  flag_use_cluster_ip : bool;
  flag_file : string
}.

(** The defaults of [init]. *)
Definition defaultFlags : Flags := {|
  flag_type := "initial";
  flag_limit := 0;
  flag_option := "anp-deny-applied";
  flag_start_time := "";
  flag_end_time := "";
  flag_ns_allow_list := "";
  flag_rm_labels := true;
  flag_to_services := true;
  flag_executor_instances := 1;
  flag_driver_core_request := "200m";
  flag_driver_memory := "512M";
  flag_executor_core_request := "200m";
  flag_executor_memory := "512M";
  flag_wait := false;
  flag_clickhouse_endpoint := "";
  flag_use_cluster_ip := false;
  flag_file := ""
|}.

Record SparkResourceArgs : Type := mkSparkResourceArgs {
  executorInstances : Z;
  driverCoreRequest : string;
  driverMemory : string;
  executorCoreRequest : string;
  executorMemory : string
}.

(** ** The messages of the validation failures *)

Definition errRecoType : error :=
  Errorf "recommendation type should be 'initial' or 'subsequent'".
Definition errLimit : error := Errorf "limit should be an integer >= 0".
Definition errOption : error :=
  Errorf ("option of network isolation preference should be " ++ nl ++
          "anp-deny-applied or anp-deny-all or k8s-np").
Definition errStartTime (err : error) : error :=
  Errorf ("parsing start-time: " ++ Error err ++ ", start-time should be in " ++ nl ++
          "'YYYY-MM-DD hh:mm:ss' format, for example: 2006-01-02 15:04:05").
Definition errEndTime (err : error) : error :=
  Errorf ("parsing end-time: " ++ Error err ++ ", end-time should be in " ++ nl ++
          "'YYYY-MM-DD hh:mm:ss' format, for example: 2006-01-02 15:04:05").
Definition errEndAfterStart : error :=
  Errorf "end-time should be after start-time".
Definition errNsAllowList (err : error) : error :=
  Errorf ("parsing ns-allow-list: " ++ Error err ++ ", ns-allow-list should " ++ nl ++
          "be a list of namespace string, for example: '[" ++
          dquote ++ "kube-system" ++ dquote ++ "," ++
          dquote ++ "flow-aggregator" ++ dquote ++ "," ++
          dquote ++ "flow-visibility" ++ dquote ++ "]'").
Definition errExecutorInstances : error :=
  Errorf "executor-instances should be an integer >= 0".
Definition errDriverCoreRequest : error :=
  Errorf "driver-core-request should conform to the Kubernetes convention".
Definition errDriverMemory : error :=
  Errorf "driver-memory should conform to the Kubernetes convention".
Definition errExecutorCoreRequest : error :=
  Errorf "executor-core-request should conform to the Kubernetes convention".
Definition errExecutorMemory : error :=
  Errorf "executor-memory should conform to the Kubernetes convention".

(** ** Validation: the checks of [RunE], in the order it makes them

    Each [return fmt.Errorf(...)] of the closure is an [Err]; what the
    checks leave behind when all pass is the argument list built so far and
    the resource arguments. No check touches anything but its own local
    variables. *)

Notation "'do' x <- e ; k" := (rbind e (fun x => k))
  (at level 10, x pattern, e at level 100, k at level 200).

Definition conforms (s : string) (e : error) : Result unit :=
  match MatchString k8sQuantitiesReg s with
  | Err _ => Err e
  | Ok matchResult => if negb matchResult then Err e else Ok tt
  end.

Definition validate (L : Lib) (f : Flags)
  : Result (list string * SparkResourceArgs) :=
  let recoJobArgs : list string := [] in
  let recoType := flag_type f in
  if negb (String.eqb recoType "initial") && negb (String.eqb recoType "subsequent")
  then Err errRecoType else
  let recoJobArgs := (recoJobArgs ++ ["--type"; recoType])%list in
  let limit := flag_limit f in
  if limit <? 0 then Err errLimit else
  let recoJobArgs := (recoJobArgs ++ ["--limit"; Itoa limit])%list in
  let option := flag_option f in
  do optionArg <-
    (if String.eqb option "anp-deny-applied" then Ok 1
     else if String.eqb option "anp-deny-all" then Ok 2
     else if String.eqb option "k8s-np" then Ok 3
     else Err errOption);
  let recoJobArgs := (recoJobArgs ++ ["--option"; Itoa optionArg])%list in
  let startTime := flag_start_time f in
  do (startTimeObj, recoJobArgs) <-
    (if negb (String.eqb startTime "") then
       match time_Parse L startTime with
       | Err err => Err (errStartTime err)
       | Ok t => Ok (t, (recoJobArgs ++ ["--start_time"; startTime])%list)
       end
     else Ok (zeroTime, recoJobArgs));
  let endTime := flag_end_time f in
  do recoJobArgs <-
    (if negb (String.eqb endTime "") then
       match time_Parse L endTime with
       | Err err => Err (errEndTime err)
       | Ok endTimeObj =>
           let endAfterStart := After endTimeObj startTimeObj in
           if negb endAfterStart then Err errEndAfterStart
           else Ok ((recoJobArgs ++ ["--end_time"; endTime])%list)
       end
     else Ok recoJobArgs);
  let nsAllowList := flag_ns_allow_list f in
  do recoJobArgs <-
    (if negb (String.eqb nsAllowList "") then
       match json_Unmarshal L nsAllowList with
       | Err err => Err (errNsAllowList err)
       | Ok _ => Ok ((recoJobArgs ++ ["--ns_allow_list"; nsAllowList])%list)
       end
     else Ok recoJobArgs);
  let rmLabels := flag_rm_labels f in
  let recoJobArgs := (recoJobArgs ++ ["--rm_labels"; FormatBool rmLabels])%list in
  let toServices := flag_to_services f in
  let recoJobArgs := (recoJobArgs ++ ["--to_services"; FormatBool toServices])%list in
  let executorInstances := flag_executor_instances f in
  if executorInstances <? 0 then Err errExecutorInstances else
  let driverCoreRequest := flag_driver_core_request f in
  do _ <- conforms driverCoreRequest errDriverCoreRequest;
  let driverMemory := flag_driver_memory f in
  do _ <- conforms driverMemory errDriverMemory;
  let executorCoreRequest := flag_executor_core_request f in
  do _ <- conforms executorCoreRequest errExecutorCoreRequest;
  let executorMemory := flag_executor_memory f in
  do _ <- conforms executorMemory errExecutorMemory;
  Ok (recoJobArgs,
      {| executorInstances := executorInstances;
         driverCoreRequest := driverCoreRequest;
         driverMemory := driverMemory;
         executorCoreRequest := executorCoreRequest;
         executorMemory := executorMemory |}).

(** ** The SparkApplication the command submits

    The fields of the [metav1] and [sparkv1] structs that the command sets;
    a pointer field is an [option], a map literal the list of its entries. *)
Module metav1.
Record TypeMeta : Type := { APIVersion : string; Kind : string }.
Record ObjectMeta : Type := { Name : string; Namespace : string }.
End metav1.

Module sparkv1.
Record NameKey : Type := { Name : string; Key : string }.

Record SparkPodSpec : Type := {
  Memory : option string;
  Labels : list (string * string);
  EnvSecretKeyRefs : list (string * NameKey);
  ServiceAccount : option string
}.

Record DriverSpec : Type := {
  DriverCoreRequest : option string;
  DriverPodSpec : SparkPodSpec
}.

Record ExecutorSpec : Type := {
  ExecutorCoreRequest : option string;
  ExecutorPodSpec : SparkPodSpec;
  Instances : option Z
}.

Record SparkApplicationSpec : Type := {
  Type_ : string;
  SparkVersion : string;
  Mode : string;
  Image : option string;
  ImagePullPolicy : option string;
  MainApplicationFile : option string;
  Arguments : list string;
  Driver : DriverSpec;
  Executor : ExecutorSpec
}.

Record SparkApplication : Type := {
  TypeMeta : metav1.TypeMeta;
  ObjectMeta : metav1.ObjectMeta;
  Spec : SparkApplicationSpec
}.
End sparkv1.

Definition ConstStrToPointer (s : string) : option string := Some s.

Definition clickhouseSecretRefs : list (string * sparkv1.NameKey) :=
  [ ("CH_USERNAME", {| sparkv1.Name := "clickhouse-secret"; sparkv1.Key := "username" |});
    ("CH_PASSWORD", {| sparkv1.Name := "clickhouse-secret"; sparkv1.Key := "password" |}) ].

(** The struct literal of [RunE], over the argument list (the [--id] pair
    already appended), the resource arguments and the identifier. *)
Definition recommendationApplication
    (recoJobArgs : list string) (sparkResourceArgs : SparkResourceArgs)
    (recommendationID : string) : sparkv1.SparkApplication :=
  {| sparkv1.TypeMeta :=
       {| metav1.APIVersion := "sparkoperator.k8s.io/v1beta2";
          metav1.Kind := "SparkApplication" |};
     sparkv1.ObjectMeta :=
       {| metav1.Name := "policy-reco-" ++ recommendationID;
          metav1.Namespace := flowVisibilityNS |};
     sparkv1.Spec :=
       {| sparkv1.Type_ := "Python";
          sparkv1.SparkVersion := sparkVersion;
          sparkv1.Mode := "cluster";
          sparkv1.Image := ConstStrToPointer sparkImage;
          sparkv1.ImagePullPolicy := ConstStrToPointer sparkImagePullPolicy;
          sparkv1.MainApplicationFile := ConstStrToPointer sparkAppFile;
          sparkv1.Arguments := recoJobArgs;
          sparkv1.Driver :=
            {| sparkv1.DriverCoreRequest := Some (driverCoreRequest sparkResourceArgs);
               sparkv1.DriverPodSpec :=
                 {| sparkv1.Memory := Some (driverMemory sparkResourceArgs);
                    sparkv1.Labels := [("version", sparkVersion)];
                    sparkv1.EnvSecretKeyRefs := clickhouseSecretRefs;
                    sparkv1.ServiceAccount := ConstStrToPointer sparkServiceAccount |} |};
          sparkv1.Executor :=
            {| sparkv1.ExecutorCoreRequest := Some (executorCoreRequest sparkResourceArgs);
               sparkv1.ExecutorPodSpec :=
                 {| sparkv1.Memory := Some (executorMemory sparkResourceArgs);
                    sparkv1.Labels := [("version", sparkVersion)];
                    sparkv1.EnvSecretKeyRefs := clickhouseSecretRefs;
                    sparkv1.ServiceAccount := None |};
               sparkv1.Instances := Some (executorInstances sparkResourceArgs) |} |} |}.

(** ** The world the command runs in

    What the callees outside this file answer. [uuid_New n] is the string
    of the [n]-th identifier [uuid.New()] hands out; the answer to a status
    query may change with the number of queries made before it. *)
Record Cluster : Type := mkCluster {
  ResolveKubeConfig : Result unit;
  CreateK8sClient : Result unit;
  PolicyRecoPreCheck : Result unit;
  uuid_New : nat -> string;
  Post : sparkv1.SparkApplication -> Result unit;
  getPolicyRecommendationStatus : nat -> string -> Result string;
  CheckClickHousePod : Result unit;
  getPolicyRecommendationResult :
    string -> bool -> string -> string -> Result string
}.

(** What an invocation does that can be seen from outside, in order. *)
Inductive Event : Type :=
| EvResolveKubeConfig
| EvCreateK8sClient
| EvPolicyRecoPreCheck
| EvPost (app : sparkv1.SparkApplication)
| EvGetStatus (recoID : string)
| EvCheckClickHousePod
| EvGetResult (endpoint : string) (useClusterIP : bool) (filePath recoID : string)
| EvPrint (s : string).

Record State : Type := mkState {
  drawn : nat;          (* identifiers handed out by uuid.New so far *)
  queries : nat;        (* status queries made so far *)
  slept : Z;            (* time spent waiting for ticks, in nanoseconds *)
  trace : list Event
}.

Definition initState : State := mkState 0 0 0 [].

(** State and errors threaded through the calls. An error stops the
    closure; what was done before it stays done. *)
Definition M (A : Type) : Type := State -> Result A * State.

Definition ret {A : Type} (a : A) : M A := fun st => (Ok a, st).
Definition fail {A : Type} (e : error) : M A := fun st => (Err e, st).
Definition bind {A B : Type} (m : M A) (k : A -> M B) : M B :=
  fun st =>
    match m st with
    | (Ok a, st') => k a st'
    | (Err e, st') => (Err e, st')
    end.

Notation "x <- m ;; k" := (bind m (fun x => k))
  (at level 61, m at next level, right associativity).
Notation "m ;; k" := (bind m (fun _ => k))
  (at level 61, right associativity).

Definition emit (ev : Event) : M unit :=
  fun st => (Ok tt, mkState (drawn st) (queries st) (slept st) (trace st ++ [ev])%list).

(** A call whose answer the cluster gives. *)
Definition call {A : Type} (ev : Event) (answer : Result A) : M A :=
  emit ev ;; (fun st => (answer, st)).

Definition uuid_New_String (C : Cluster) : M string :=
  fun st => (Ok (uuid_New C (drawn st)),
             mkState (S (drawn st)) (queries st) (slept st) (trace st)).

Definition statusQuery (C : Cluster) (recoID : string) : M string :=
  fun st => (getPolicyRecommendationStatus C (queries st) recoID,
             mkState (drawn st) (S (queries st)) (slept st)
                     (trace st ++ [EvGetStatus recoID])%list).

Definition sleep (d : Z) : M unit :=
  fun st => (Ok tt, mkState (drawn st) (queries st) (slept st + d) (trace st)).

(** ** [wait.Poll]

    A ticker of period [interval] and a timer of [timeout] run side by
    side. The condition runs at each tick; when the timer fires the tick
    channel is closed, the condition runs once more, and the loop ends with
    [ErrWaitTimeout] unless the condition reports that it is done. The
    condition reporting done or an error ends the loop at once. (A timeout
    of zero, which [wait.Poll] reads as no timeout at all, is not the
    command's and is left out.)

    The loop is read on an ideal clock: the condition takes no time, no
    tick is dropped, and a tick due at the very instant the timer fires is
    delivered first. *)
Fixpoint waitFor (ticks : nat) (interval rest : Z) (condition : M bool) : M unit :=
  match ticks with
  | O =>
      sleep rest ;;
      ok <- condition ;;
      if ok : bool then ret tt else fail ErrWaitTimeout
  | S n =>
      sleep interval ;;
      ok <- condition ;;
      if ok : bool then ret tt else waitFor n interval rest condition
  end.

Definition wait_Poll (interval timeout : Z) (condition : M bool) : M unit :=
  waitFor (Z.to_nat (timeout / interval)) interval (timeout mod interval) condition.

(** The ticks the ticker of the command can deliver before its timer fires. *)
Definition pollTicks : nat :=
  Z.to_nat (statusCheckPollTimeout / statusCheckPollInterval).

(** ** The status poller *)

Definition isFailureState (state : string) : bool :=
  String.eqb state "FAILED" || String.eqb state "SUBMISSION_FAILED" ||
  String.eqb state "FAILING" || String.eqb state "INVALIDATING".

Definition errJobFailed (state : string) : error :=
  Errorf ("policy recommendation job failed, state: " ++ state).

(** The closure handed to [wait.Poll]. *)
Definition pollCondition (C : Cluster) (recommendationID : string) : M bool :=
  state <- statusQuery C recommendationID ;;
  if String.eqb state "COMPLETED" then ret true
  else if isFailureState state then fail (errJobFailed state)
  else ret false.

Definition pollStatus (C : Cluster) (recommendationID : string) : M unit :=
  wait_Poll statusCheckPollInterval statusCheckPollTimeout
            (pollCondition C recommendationID).

(** ** The result fetch: what [RunE] does once the poll has succeeded *)

Definition errDecodeEndpoint (endpoint : string) (err : error) : error :=
  Errorf ("failed to decode input endpoint " ++ endpoint ++
          " into a url, err: " ++ Error err).

Definition fetchResult (L : Lib) (C : Cluster) (f : Flags)
    (recommendationID : string) : M unit :=
  let endpoint := flag_clickhouse_endpoint f in
  (if negb (String.eqb endpoint "") then
     match url_ParseRequestURI L endpoint with
     | Err err => fail (errDecodeEndpoint endpoint err)
     | Ok _ => ret tt
     end
   else ret tt) ;;
  let useClusterIP := flag_use_cluster_ip f in
  let filePath := flag_file f in
  call EvCheckClickHousePod (CheckClickHousePod C) ;;
  recoResult <- call (EvGetResult endpoint useClusterIP filePath recommendationID)
                     (getPolicyRecommendationResult C endpoint useClusterIP filePath
                                                    recommendationID) ;;
  (if negb (String.eqb recoResult "") then emit (EvPrint recoResult) else ret tt) ;;
  ret tt.

(** ** [RunE] *)

Definition errCreateK8sClient (err : error) : error :=
  Errorf ("couldn't create k8s client using given kubeconfig, " ++ Error err).

Definition wrapErr {A : Type} (wrap : error -> error) (m : M A) : M A :=
  fun st =>
    match m st with
    | (Ok a, st') => (Ok a, st')
    | (Err e, st') => (Err (wrap e), st')
    end.

(** From the first flag lookup to the answer of the control plane: the
    checks, the client, the pre-check, the fresh identifier, the
    SparkApplication and its submission. *)
Definition submitJob (L : Lib) (C : Cluster) (f : Flags) : M string :=
  match validate L f with
  | Err e => fail e
  | Ok (recoJobArgs, sparkResourceArgs) =>
      call EvResolveKubeConfig (ResolveKubeConfig C) ;;
      wrapErr errCreateK8sClient (call EvCreateK8sClient (CreateK8sClient C)) ;;
      call EvPolicyRecoPreCheck (PolicyRecoPreCheck C) ;;
      recommendationID <- uuid_New_String C ;;
      let recoJobArgs := (recoJobArgs ++ ["--id"; recommendationID])%list in
      let app := recommendationApplication recoJobArgs sparkResourceArgs
                                           recommendationID in
      call (EvPost app) (Post C app) ;;
      ret recommendationID
  end.

Definition createdMessage (recommendationID : string) : string :=
  "Successfully created policy recommendation job with ID " ++ recommendationID ++ nl.

Definition RunE (L : Lib) (C : Cluster) (f : Flags) : M unit :=
  recommendationID <- submitJob L C f ;;
  let waitFlag := flag_wait f in
  if waitFlag then
    pollStatus C recommendationID ;;
    fetchResult L C f recommendationID
  else
    emit (EvPrint (createdMessage recommendationID)).

(** [n] invocations one after the other with the same flags. *)
Fixpoint runs (L : Lib) (C : Cluster) (f : Flags) (n : nat) (st : State) : State :=
  match n with
  | O => st
  | S n' => runs L C f n' (snd (RunE L C f st))
  end.

(** What a trace shows of the submissions and of standard output. *)
Fixpoint posted (t : list Event) : list sparkv1.SparkApplication :=
  match t with
  | [] => []
  | EvPost app :: t' => app :: posted t'
  | _ :: t' => posted t'
  end.

Fixpoint printed (t : list Event) : list string :=
  match t with
  | [] => []
  | EvPrint s :: t' => s :: printed t'
  | _ :: t' => printed t'
  end.

(** ** The checks one by one

    Each check of the closure read on its own, as a function of the flags:
    [None] when it passes, the error it returns when it fails. They are
    listed in the order the closure makes them. *)

Definition checkType (f : Flags) : option error :=
  if negb (String.eqb (flag_type f) "initial") && negb (String.eqb (flag_type f) "subsequent")
  then Some errRecoType else None.

Definition checkLimit (f : Flags) : option error :=
  if flag_limit f <? 0 then Some errLimit else None.

(** The vocabulary of [--option] and the code of each word. *)
Definition optionCode (name : string) : option Z :=
  if String.eqb name "anp-deny-applied" then Some 1
  else if String.eqb name "anp-deny-all" then Some 2
  else if String.eqb name "k8s-np" then Some 3
  else None.

Definition optionTable : list (string * Z) :=
  [("anp-deny-applied", 1); ("anp-deny-all", 2); ("k8s-np", 3)].

Definition checkOption (f : Flags) : option error :=
  match optionCode (flag_option f) with
  | Some _ => None
  | None => Some errOption
  end.

Definition checkStartTime (L : Lib) (f : Flags) : option error :=
  if String.eqb (flag_start_time f) "" then None
  else match time_Parse L (flag_start_time f) with
       | Err err => Some (errStartTime err)
       | Ok _ => None
       end.

(** The start the end is compared with: the parsed start-time, or the zero
    [time.Time] when no start-time is given. *)
Definition startTimeOf (L : Lib) (f : Flags) : Time :=
  if String.eqb (flag_start_time f) "" then zeroTime
  else match time_Parse L (flag_start_time f) with
       | Ok t => t
       | Err _ => zeroTime
       end.

Definition checkEndTime (L : Lib) (f : Flags) : option error :=
  if String.eqb (flag_end_time f) "" then None
  else match time_Parse L (flag_end_time f) with
       | Err err => Some (errEndTime err)
       | Ok endTimeObj =>
           if After endTimeObj (startTimeOf L f) then None else Some errEndAfterStart
       end.

Definition checkNsAllowList (L : Lib) (f : Flags) : option error :=
  if String.eqb (flag_ns_allow_list f) "" then None
  else match json_Unmarshal L (flag_ns_allow_list f) with
       | Err err => Some (errNsAllowList err)
       | Ok _ => None
       end.

Definition checkExecutorInstances (f : Flags) : option error :=
  if flag_executor_instances f <? 0 then Some errExecutorInstances else None.

Definition checkQuantity (s : string) (e : error) : option error :=
  if Regexp.matches k8sQuantitiesReg s then None else Some e.

Definition checks (L : Lib) (f : Flags) : list (option error) :=
  [ checkType f;
    checkLimit f;
    checkOption f;
    checkStartTime L f;
    checkEndTime L f;
    checkNsAllowList L f;
    checkExecutorInstances f;
    checkQuantity (flag_driver_core_request f) errDriverCoreRequest;
    checkQuantity (flag_driver_memory f) errDriverMemory;
    checkQuantity (flag_executor_core_request f) errExecutorCoreRequest;
    checkQuantity (flag_executor_memory f) errExecutorMemory ].

Fixpoint firstFailure (cs : list (option error)) : option error :=
  match cs with
  | [] => None
  | Some e :: _ => Some e
  | None :: cs' => firstFailure cs'
  end.

(** A flag and its value among the arguments, when the flag is given. *)
Definition whenGiven (name value : string) : list string :=
  if String.eqb value "" then [] else [name; value].

(** The argument list the checks leave behind, for the option code [code]. *)
Definition encodedArgs (f : Flags) (code : Z) : list string :=
  (["--type"; flag_type f; "--limit"; Itoa (flag_limit f); "--option"; Itoa code]
   ++ whenGiven "--start_time" (flag_start_time f)
   ++ whenGiven "--end_time" (flag_end_time f)
   ++ whenGiven "--ns_allow_list" (flag_ns_allow_list f)
   ++ ["--rm_labels"; FormatBool (flag_rm_labels f);
       "--to_services"; FormatBool (flag_to_services f)])%list.

Definition codeOf (f : Flags) : Z :=
  match optionCode (flag_option f) with Some c => c | None => 0 end.

Definition resourcesOf (f : Flags) : SparkResourceArgs :=
  {| executorInstances := flag_executor_instances f;
     driverCoreRequest := flag_driver_core_request f;
     driverMemory := flag_driver_memory f;
     executorCoreRequest := flag_executor_core_request f;
     executorMemory := flag_executor_memory f |}.

(** The checks of the four quantities, and the checks made before them. *)
Definition quantityChecks (f : Flags) : list (option error) :=
  [ checkQuantity (flag_driver_core_request f) errDriverCoreRequest;
    checkQuantity (flag_driver_memory f) errDriverMemory;
    checkQuantity (flag_executor_core_request f) errExecutorCoreRequest;
    checkQuantity (flag_executor_memory f) errExecutorMemory ].

Definition earlierChecks (L : Lib) (f : Flags) : list (option error) :=
  [ checkType f; checkLimit f; checkOption f; checkStartTime L f; checkEndTime L f;
    checkNsAllowList L f; checkExecutorInstances f ].

(** The SparkApplications built for the identifiers [ids], and the name a
    SparkApplication is submitted under. *)
Definition jobSpecs (args : list string) (res : SparkResourceArgs) (ids : list string)
  : list sparkv1.SparkApplication :=
  map (fun id => recommendationApplication (args ++ ["--id"; id])%list res id) ids.

Definition jobName (app : sparkv1.SparkApplication) : string :=
  metav1.Name (sparkv1.ObjectMeta app).

(** ** Reading the poll *)

(** A reported state that ends the poll neither way. *)
Definition nonTerminal (state : string) : bool :=
  negb (String.eqb state "COMPLETED") && negb (isFailureState state).

(** The first [k] answers from [st] on report states that do not end the
    poll. *)
Definition stillRunning (C : Cluster) (recoID : string) (st : State) (k : nat) : Prop :=
  forall i, (i < k)%nat ->
    exists state, getPolicyRecommendationStatus C (queries st + i) recoID = Ok state
                  /\ nonTerminal state = true.

(** The time spent waiting when query number [k] (from 0) is made by a loop
    of [ticks] ticks: one interval per tick, and what is left of the
    timeout before the last query. *)
Definition waited (ticks : nat) (interval rest : Z) (k : nat) : Z :=
  if (k <? ticks)%nat then Z.of_nat (S k) * interval
  else Z.of_nat ticks * interval + rest.

(** The same for the loop of the command, whose timeout is a whole number
    of intervals. *)
Definition pollWaited (k : nat) : Z :=
  waited pollTicks statusCheckPollInterval 0 k.

(** [st] after [n] more status queries for [recoID] and [d] more
    nanoseconds of waiting. *)
Definition afterQueries (st : State) (recoID : string) (n : nat) (d : Z) : State :=
  mkState (drawn st) (queries st + n) (slept st + d)
          (trace st ++ repeat (EvGetStatus recoID) n)%list.

(** The state in which [submitJob] hands over: one more identifier drawn,
    and the four calls it made. *)
Definition submitted (st : State) (app : sparkv1.SparkApplication) : State :=
  mkState (S (drawn st)) (queries st) (slept st)
          (trace st ++ [EvResolveKubeConfig; EvCreateK8sClient;
                        EvPolicyRecoPreCheck; EvPost app])%list.

(** A stage keeps the submissions when it draws no identifier and posts
    nothing. *)
Definition keeps (st st' : State) : Prop :=
  drawn st' = drawn st /\ posted (trace st') = posted (trace st).

(** [st] after the events [evs]. *)
Definition andThen (st : State) (evs : list Event) : State :=
  mkState (drawn st) (queries st) (slept st) (trace st ++ evs)%list.

(** ** A library and clusters to run the command on

    [Sample.lib] reads a timestamp strictly as the layout is written
    (four-digit year, two digits for each other field, one separator
    between fields, every field in range) and gives it the instant Go
    gives it; Go's own parser is more lenient on a few spellings, and
    words its errors at greater length. It answers for the allow-lists and
    endpoints listed here and reports any other string malformed. The
    theorems below hold for every [Lib]; this one serves to run the command
    on concrete flags. *)
Module Sample.

Definition isDigit (c : ascii) : bool :=
  let n := nat_of_ascii c in (48 <=? n)%nat && (n <=? 57)%nat.

Definition digit (c : ascii) : Z := Z.of_nat (nat_of_ascii c) - 48.

(** Reads [n] digits off the front of [s]. *)
Fixpoint digits (n : nat) (acc : Z) (s : string) : option (Z * string) :=
  match n with
  | O => Some (acc, s)
  | S n' =>
      match s with
      | String c rest =>
          if isDigit c then digits n' (acc * 10 + digit c) rest else None
      | EmptyString => None
      end
  end.

Definition skip (c : ascii) (s : string) : option string :=
  match s with
  | String d rest => if Ascii.eqb c d then Some rest else None
  | EmptyString => None
  end.

Definition isLeap (year : Z) : bool :=
  (year mod 4 =? 0) && (negb (year mod 100 =? 0) || (year mod 400 =? 0)).

Definition daysIn (month year : Z) : Z :=
  if month =? 2 then (if isLeap year then 29 else 28)
  else if (month =? 4) || (month =? 6) || (month =? 9) || (month =? 11) then 30
  else 31.

(** Days from January 1 of year 1 to the given day of the proleptic
    Gregorian calendar. *)
Definition daysSinceYear1 (year month day : Z) : Z :=
  let y := if month <=? 2 then year - 1 else year in
  let era := y / 400 in
  let yoe := y - era * 400 in
  let mp := if 2 <? month then month - 3 else month + 9 in
  let doy := (153 * mp + 2) / 5 + day - 1 in
  let doe := yoe * 365 + yoe / 4 - yoe / 100 + doy in
  era * 146097 + doe - 306.

(** [time.Date(year, month, day, hour, min, sec, 0, time.UTC)] for fields
    in range. *)
Definition Date (year month day hour min second : Z) : Time :=
  mkTime (daysSinceYear1 year month day * 86400 + hour * 3600 + min * 60 + second) 0.

Definition errParse (value : string) : error :=
  Foreign ("parsing time " ++ dquote ++ value ++ dquote ++ " as " ++
           dquote ++ "2006-01-02 15:04:05" ++ dquote).

Definition obind {A B : Type} (o : option A) (k : A -> option B) : option B :=
  match o with Some a => k a | None => None end.

Definition parseFields (value : string) : option Time :=
  obind (digits 4 0 value) (fun '(year, s) =>
  obind (skip "-" s) (fun s =>
  obind (digits 2 0 s) (fun '(month, s) =>
  obind (skip "-" s) (fun s =>
  obind (digits 2 0 s) (fun '(day, s) =>
  obind (skip " " s) (fun s =>
  obind (digits 2 0 s) (fun '(hour, s) =>
  obind (skip ":" s) (fun s =>
  obind (digits 2 0 s) (fun '(min, s) =>
  obind (skip ":" s) (fun s =>
  obind (digits 2 0 s) (fun '(second, s) =>
    if String.eqb s "" && (1 <=? month) && (month <=? 12)
       && (1 <=? day) && (day <=? daysIn month year)
       && (hour <? 24) && (min <? 60) && (second <? 60)
    then Some (Date year month day hour min second)
    else None))))))))))).

Definition parseTime (value : string) : Result Time :=
  match parseFields value with
  | Some t => Ok t
  | None => Err (errParse value)
  end.

Definition defaultNsAllowList : string :=
  "[" ++ dquote ++ "kube-system" ++ dquote ++ "," ++
  dquote ++ "flow-aggregator" ++ dquote ++ "," ++
  dquote ++ "flow-visibility" ++ dquote ++ "]".

Definition unmarshalStrings (s : string) : Result (list string) :=
  if String.eqb s defaultNsAllowList
  then Ok ["kube-system"; "flow-aggregator"; "flow-visibility"]
  else if String.eqb s "[]" then Ok []
  else Err (Foreign "invalid character looking for beginning of value").

Definition parseRequestURI (s : string) : Result unit :=
  if String.eqb s "http://localhost:8123" || String.eqb s "tcp://localhost:9000"
  then Ok tt
  else Err (Foreign ("parse " ++ dquote ++ s ++ dquote ++ ": invalid URI for request")).

Definition lib : Lib := mkLib parseTime unmarshalStrings parseRequestURI.

(** The identifiers handed out: distinct strings of the shape of a UUID. *)
Definition newUUID (n : nat) : string :=
  "e998433e-accb-4888-9fc8-06563f07" ++ Itoa (1000 + Z.of_nat n).

(** The [n]-th status query is answered by the [n]-th entry of the
    script, or by [last] once the script is used up. *)
Definition scripted (script : list (Result string)) (last : Result string)
  : nat -> string -> Result string :=
  fun n _ => nth n script last.

(** A cluster in which every call succeeds, the status queries follow the
    script, and the stored result is [result]. *)
Definition cluster (script : list (Result string)) (last : Result string)
    (result : Result string) : Cluster :=
  {| ResolveKubeConfig := Ok tt;
     CreateK8sClient := Ok tt;
     PolicyRecoPreCheck := Ok tt;
     uuid_New := newUUID;
     Post := fun _ => Ok tt;
     getPolicyRecommendationStatus := scripted script last;
     CheckClickHousePod := Ok tt;
     getPolicyRecommendationResult := fun _ _ _ _ => result |}.

(** The same cluster without its ClickHouse Pod. *)
Definition clusterWithoutClickHouse (script : list (Result string))
    (last : Result string) : Cluster :=
  {| ResolveKubeConfig := Ok tt;
     CreateK8sClient := Ok tt;
     PolicyRecoPreCheck := Ok tt;
     uuid_New := newUUID;
     Post := fun _ => Ok tt;
     getPolicyRecommendationStatus := scripted script last;
     CheckClickHousePod := Err (Foreign "can't find the ClickHouse Pod");
     getPolicyRecommendationResult := fun _ _ _ _ => Ok "" |}.

(** The defaults of [init] with six flags given. *)
Definition request (type : string) (limit : Z)
    (option startTime endTime driverCoreRequest : string) : Flags :=
  mkFlags type limit option startTime endTime "" true true 1
          driverCoreRequest "512M" "200m" "512M" false "" false "".

(** The defaults of [init] with [--wait] and an endpoint. *)
Definition waiting (endpoint : string) : Flags :=
  mkFlags "initial" 0 "anp-deny-applied" "" "" "" true true 1
          "200m" "512M" "200m" "512M" true endpoint false "".

Definition withWait (f : Flags) : Flags :=
  mkFlags (flag_type f) (flag_limit f) (flag_option f) (flag_start_time f)
          (flag_end_time f) (flag_ns_allow_list f) (flag_rm_labels f)
          (flag_to_services f) (flag_executor_instances f)
          (flag_driver_core_request f) (flag_driver_memory f)
          (flag_executor_core_request f) (flag_executor_memory f)
          true (flag_clickhouse_endpoint f) (flag_use_cluster_ip f) (flag_file f).

End Sample.

(** ** [time.Parse] under the layout of the command

    [time.Parse("2006-01-02 15:04:05", value)], after the parser of Go's
    standard library (time/format.go), one element of the layout after the
    other: the year is four digits; month, day, minute and second are two
    digits each; the hour is one digit or two; a byte of the layout other
    than a space stands for itself and the space for a run of spaces; and
    after the second, a comma or a period followed by digits is read as a
    fractional second although the layout has none (the comma since Go
    1.17; current releases drop the digits past the ninth). Month, hour,
    minute and second are checked against their ranges as they are read,
    the day against the month and the year at the end, and nothing may
    follow. Of the [*ParseError] returned for a value that is refused only
    that there is one is kept. *)
Module GoTime.

(** [getnum(s, fixed)]: the number in the first digit of [s], or in its
    first two digits when the second byte is a digit too, which it must be
    when [fixed]. *)
Definition getnum (s : string) (fixed : bool) : option (Z * string) :=
  match s with
  | String c0 rest0 =>
      if negb (Sample.isDigit c0) then None
      else match rest0 with
           | String c1 rest1 =>
               if Sample.isDigit c1
               then Some (Sample.digit c0 * 10 + Sample.digit c1, rest1)
               else if fixed then None else Some (Sample.digit c0, rest0)
           | EmptyString => if fixed then None else Some (Sample.digit c0, rest0)
           end
  | EmptyString => None
  end.

(** [stdLongYear]: [atoi] of the first four bytes, which must be digits. *)
Definition longYear (value : string) : option (Z * string) := Sample.digits 4 0 value.

Fixpoint cutspace (s : string) : string :=
  match s with
  | String c rest => if Ascii.eqb c " " then cutspace rest else s
  | EmptyString => s
  end.

(** [skip(value, prefix)] for a prefix of one byte, as all prefixes of
    this layout are: a space takes the spaces at the front of [value] and
    fails on another byte; any other byte must be the next one. *)
Definition skip (value : string) (prefix : ascii) : option string :=
  if Ascii.eqb prefix " " then
    match value with
    | String c _ => if Ascii.eqb c " " then Some (cutspace value) else None
    | EmptyString => Some value
    end
  else
    match value with
    | String c rest => if Ascii.eqb c prefix then Some rest else None
    | EmptyString => None
    end.

Definition commaOrPeriod (c : ascii) : bool := Ascii.eqb c "." || Ascii.eqb c ",".

(** The digits at the front of [s] and what follows them. *)
Fixpoint leadingDigits (s : string) : string * string :=
  match s with
  | String c rest =>
      if Sample.isDigit c
      then let (digits, value) := leadingDigits rest in (String c digits, value)
      else (EmptyString, s)
  | EmptyString => (EmptyString, EmptyString)
  end.

Fixpoint atoi (acc : Z) (digits : string) : Z :=
  match digits with
  | String c rest => atoi (acc * 10 + Sample.digit c) rest
  | EmptyString => acc
  end.

(** [parseNanoseconds] on the digits of the fraction: the digits past the
    ninth are dropped and the others scaled to nanoseconds. *)
Definition parseNanoseconds (digits : string) : Z :=
  let kept := substring 0 9 digits in
  atoi 0 kept * 10 ^ (9 - Z.of_nat (String.length kept)).

(** What follows the second: a fractional second, if a comma or a period
    and a digit come next. *)
Definition fraction (value : string) : Z * string :=
  match value with
  | String c0 (String c1 rest) =>
      if commaOrPeriod c0 && Sample.isDigit c1
      then let (digits, value') := leadingDigits (String c1 rest) in
           (parseNanoseconds digits, value')
      else (0, value)
  | _ => (0, value)
  end.

Definition Parse (value : string) : option Time :=
  Sample.obind (longYear value) (fun '(year, value) =>
  Sample.obind (skip value "-") (fun value =>
  Sample.obind (getnum value true) (fun '(month, value) =>
  if (month <=? 0) || (12 <? month) then None else
  Sample.obind (skip value "-") (fun value =>
  Sample.obind (getnum value true) (fun '(day, value) =>
  Sample.obind (skip value " ") (fun value =>
  Sample.obind (getnum value false) (fun '(hour, value) =>
  if 24 <=? hour then None else
  Sample.obind (skip value ":") (fun value =>
  Sample.obind (getnum value true) (fun '(min, value) =>
  if 60 <=? min then None else
  Sample.obind (skip value ":") (fun value =>
  Sample.obind (getnum value true) (fun '(second, value) =>
  if 60 <=? second then None else
  let (nanoseconds, value) := fraction value in
  if negb (String.eqb value "") then None
  else if (day <? 1) || (Sample.daysIn month year <? day) then None
  else Some (mkTime (sec (Sample.Date year month day hour min second))
                    nanoseconds)))))))))))).

(** [L] with [time.Parse] read as above; [parseError] words the error for
    a value that is refused. *)
Definition lib (parseError : string -> error) (L : Lib) : Lib :=
  mkLib (fun value => match Parse value with
                      | Some t => Ok t
                      | None => Err (parseError value)
                      end)
        (json_Unmarshal L) (url_ParseRequestURI L).

End GoTime.

(** ** The timestamp grammar of the spec

    The spec gives the grammar of a timestamp as [YYYY-MM-DD hh:mm:ss]:
    four digits, then five times two digits, with these separators and
    nothing else. It is written here as the spec words it, to be compared
    with what the parser accepts. *)
Inductive element : Type :=
| Digit
| Byte (c : ascii).

Definition timestampGrammar : list element :=
  [ Digit; Digit; Digit; Digit; Byte "-"; Digit; Digit; Byte "-"; Digit; Digit;
    Byte " "; Digit; Digit; Byte ":"; Digit; Digit; Byte ":"; Digit; Digit ].

Fixpoint spelled (grammar : list element) (s : string) : bool :=
  match grammar, s with
  | [], EmptyString => true
  | Digit :: grammar', String c rest => Sample.isDigit c && spelled grammar' rest
  | Byte b :: grammar', String c rest => Ascii.eqb b c && spelled grammar' rest
  | _, _ => false
  end.

(** The timestamp of the grammar with the given fields, for a year below
    10000 and other fields below 100. *)
Definition digitChar (n : Z) : ascii := ascii_of_nat (48 + Z.to_nat n).

Definition two (n : Z) : string :=
  String (digitChar (n / 10)) (String (digitChar (n mod 10)) EmptyString).

Definition four (n : Z) : string := two (n / 100) ++ two (n mod 100).

Definition stamp (year month day hour min second : Z) : string :=
  four year ++ "-" ++ two month ++ "-" ++ two day ++ " " ++
  two hour ++ ":" ++ two min ++ ":" ++ two second.

(** The fields name a day of the calendar and a time of that day. *)
Definition realTime (year month day hour min second : Z) : bool :=
  (1 <=? month) && (month <=? 12) && (1 <=? day) && (day <=? Sample.daysIn month year)
  && (hour <? 24) && (min <? 60) && (second <? 60).

(** ** How a call of the test doubles ends

    A Go call returns, or it panics: a nil pointer is dereferenced, a nil
    map is written, a slice is indexed past its length. *)
Inductive Outcome (A : Type) : Type :=
| Returned (a : A)
| Panicked.
Arguments Returned {A} a.
Arguments Panicked {A}.

(** Go maps keyed by strings. A map variable holds [None] until [make]
    gives it a map: reading, deleting from and ranging over a nil map are
    allowed, writing to it panics. *)
Module SMap := FMapList.Make(OrderedTypeEx.String_as_OT).
Module SMapFacts := FMapFacts.Facts(SMap).
Module SMapProps := FMapFacts.Properties(SMap).

Module GoMap.

Definition t (V : Type) : Type := option (SMap.t V).

Definition make {V : Type} : t V := Some (SMap.empty V).

(** [v, ok := m[k]] *)
Definition lookup {V : Type} (m : t V) (k : string) : option V :=
  match m with
  | Some entries => SMap.find k entries
  | None => None
  end.

(** [m[k] = v] *)
Definition assign {V : Type} (m : t V) (k : string) (v : V) : Outcome (t V) :=
  match m with
  | Some entries => Returned (Some (SMap.add k v entries))
  | None => Panicked
  end.

(** [delete(m, k)] *)
Definition delete {V : Type} (m : t V) (k : string) : t V :=
  match m with
  | Some entries => Some (SMap.remove k entries)
  | None => None
  end.

(** [len(m)] *)
Definition len {V : Type} (m : t V) : nat :=
  match m with
  | Some entries => SMap.cardinal entries
  | None => 0%nat
  end.

(** [for k, v := range m]. Go does not specify the order in which a range
    meets the entries of a map, and two loops over the same map may take
    two orders. A loop is read together with the order it took: [order]
    is such an order for [m] when it lists every key of [m] once, and the
    loop then meets the entries [range m order]. *)
Definition visits {V : Type} (m : t V) (order : list string) : Prop :=
  NoDup order /\ forall k, In k order <-> lookup m k <> None.

Definition range {V : Type} (m : t V) (order : list string) : list (string * V) :=
  flat_map (fun k => match lookup m k with
                     | Some v => [(k, v)]
                     | None => []
                     end) order.

End GoMap.

(** ** The fake S3 client ([FakeS3Client])

    Its two package variables are the state; a method takes the state and
    gives back how the call ended and the state it left. Of the input and
    output structs of the SDK only the fields the fake reads or sets are
    kept: the outputs of all methods but [ListObjectsV2] are empty, so a
    call that returns is given by its [error] alone. *)
Module FakeS3.

Inductive fakeBucket : Type := mkFakeBucket.

(** [s3types.Object], with its [Key *string]. *)
Record Object : Type := mkObject { Key : option string }.

(** [&s3types.NotFound{}], the one error the fake returns. *)
Inductive S3Error : Type := NotFound.

Record Store : Type := mkStore {
  FakeBuckets : GoMap.t fakeBucket;
  fakeNonEmptyBucket : GoMap.t Object
}.

(** The package variables before any [Init...] call. *)
Definition unset : Store := mkStore None None.

Record HeadBucketInput : Type := { HeadBucketInput_Bucket : option string }.
Record CreateBucketInput : Type := { CreateBucketInput_Bucket : option string }.
Record DeleteBucketInput : Type := { DeleteBucketInput_Bucket : option string }.
Record ListObjectsV2Input : Type := { ListObjectsV2Input_Bucket : option string }.
Record ObjectIdentifier : Type := { ObjectIdentifier_Key : option string }.
Record Delete : Type := { Objects : list ObjectIdentifier }.
Record DeleteObjectsInput : Type := {
  DeleteObjectsInput_Bucket : option string;
  DeleteObjectsInput_Delete : option Delete
}.

Definition InitFakeBuckets (st : Store) : Store :=
  mkStore (Some (SMap.add "existingBucket" mkFakeBucket (SMap.empty fakeBucket)))
          (fakeNonEmptyBucket st).

Definition InitFakeNonEmptyBucket (st : Store) : Store :=
  let key1 := "key1" in
  let key2 := "key2" in
  mkStore (FakeBuckets st)
          (Some (SMap.add key2 (mkObject (Some key2))
                   (SMap.add key1 (mkObject (Some key1)) (SMap.empty Object)))).

Definition HeadBucket (params : option HeadBucketInput) (st : Store)
  : Outcome (option S3Error) * Store :=
  match params with
  | None => (Panicked, st)
  | Some params =>
      let bucketName := HeadBucketInput_Bucket params in
      match bucketName with
      | None => (Panicked, st)
      | Some name =>
          match GoMap.lookup (FakeBuckets st) name with
          | Some _ => (Returned None, st)
          | None => (Returned (Some NotFound), st)
          end
      end
  end.

Definition CreateBucket (params : option CreateBucketInput) (st : Store)
  : Outcome (option S3Error) * Store :=
  match params with
  | None => (Panicked, st)
  | Some params =>
      match CreateBucketInput_Bucket params with
      | None => (Panicked, st)
      | Some name =>
          match GoMap.assign (FakeBuckets st) name mkFakeBucket with
          | Panicked => (Panicked, st)
          | Returned buckets => (Returned None, mkStore buckets (fakeNonEmptyBucket st))
          end
      end
  end.

Definition DeleteBucket (params : option DeleteBucketInput) (st : Store)
  : Outcome (option S3Error) * Store :=
  match params with
  | None => (Panicked, st)
  | Some params =>
      match DeleteBucketInput_Bucket params with
      | None => (Panicked, st)
      | Some bucketName =>
          match GoMap.lookup (FakeBuckets st) bucketName with
          | None => (Returned (Some NotFound), st)
          | Some _ =>
              (Returned None,
               mkStore (GoMap.delete (FakeBuckets st) bucketName) (fakeNonEmptyBucket st))
          end
      end
  end.

(** [PutBucketLifecycleConfiguration], [PutBucketNotificationConfiguration]
    and [GetBucketNotificationConfiguration] read nothing of their
    parameters and return an empty output and no error. *)
Definition PutBucketLifecycleConfiguration (st : Store)
  : Outcome (option S3Error) * Store := (Returned None, st).
Definition PutBucketNotificationConfiguration (st : Store)
  : Outcome (option S3Error) * Store := (Returned None, st).
Definition GetBucketNotificationConfiguration (st : Store)
  : Outcome (option S3Error) * Store := (Returned None, st).

(** [ListObjectsV2] returns no error; what is given is [output.Contents].
    The objects are appended as the range over [fakeNonEmptyBucket] meets
    them: [order] is the order that range takes, one of
    [GoMap.visits (fakeNonEmptyBucket st)]. *)
Definition ListObjectsV2 (order : list string) (params : option ListObjectsV2Input)
    (st : Store) : Outcome (list Object) * Store :=
  match params with
  | None => (Panicked, st)
  | Some params =>
      match ListObjectsV2Input_Bucket params with
      | None => (Panicked, st)
      | Some name =>
          if String.eqb name "nonEmptyBucket"
          then (Returned (List.map snd (GoMap.range (fakeNonEmptyBucket st) order)), st)
          else (Returned [], st)
      end
  end.

(** The loop of [DeleteObjects]: a nil key stops it with a panic, the keys
    before it deleted. *)
Fixpoint deleteEach (objects : list ObjectIdentifier) (m : GoMap.t Object)
  : Outcome unit * GoMap.t Object :=
  match objects with
  | [] => (Returned tt, m)
  | obj :: rest =>
      match ObjectIdentifier_Key obj with
      | None => (Panicked, m)
      | Some key => deleteEach rest (GoMap.delete m key)
      end
  end.

Definition DeleteObjects (params : option DeleteObjectsInput) (st : Store)
  : Outcome (option S3Error) * Store :=
  match params with
  | None => (Panicked, st)
  | Some params =>
      match DeleteObjectsInput_Delete params with
      | None => (Panicked, st)
      | Some del =>
          match deleteEach (Objects del) (fakeNonEmptyBucket st) with
          | (Panicked, m) => (Panicked, mkStore (FakeBuckets st) m)
          | (Returned _, m) => (Returned None, mkStore (FakeBuckets st) m)
          end
      end
  end.

(** The calls as the SDK's users make them, with every pointer set. *)
Definition head (name : string) : Store -> Outcome (option S3Error) * Store :=
  HeadBucket (Some {| HeadBucketInput_Bucket := Some name |}).
Definition create (name : string) : Store -> Outcome (option S3Error) * Store :=
  CreateBucket (Some {| CreateBucketInput_Bucket := Some name |}).
Definition drop (name : string) : Store -> Outcome (option S3Error) * Store :=
  DeleteBucket (Some {| DeleteBucketInput_Bucket := Some name |}).
Definition contents (order : list string) (name : string)
  : Store -> Outcome (list Object) * Store :=
  ListObjectsV2 order (Some {| ListObjectsV2Input_Bucket := Some name |}).
Definition identifiers (keys : list string) : list ObjectIdentifier :=
  List.map (fun key => {| ObjectIdentifier_Key := Some key |}) keys.
Definition deleteKeys (bucket : option string) (keys : list string)
  : Store -> Outcome (option S3Error) * Store :=
  DeleteObjects (Some {| DeleteObjectsInput_Bucket := bucket;
                         DeleteObjectsInput_Delete :=
                           Some {| Objects := identifiers keys |} |}).

(** Every stored object carries the key it is stored under. *)
Definition keyed (st : Store) : Prop :=
  forall k o, GoMap.lookup (fakeNonEmptyBucket st) k = Some o -> Key o = Some k.

(** The keys under which objects are stored, each once; what is stated
    with it is membership, never a place in the list. *)
Definition storedKeys (st : Store) : list string :=
  match fakeNonEmptyBucket st with
  | Some entries => List.map fst (SMap.elements entries)
  | None => []
  end.

End FakeS3.

(** ** The fake SQS client ([FakeSqsClient]) *)
Module FakeSqs.

(** [types.Message], with its [Body *string]. *)
Record Message : Type := mkMessage { Body : option string }.

(** The package variable [FakeQueue]; a nil slice is the empty list. *)
Definition Queue : Type := list Message.

Record GetQueueUrlInput : Type := { QueueName : option string }.
Record ReceiveMessageInput : Type := {
  QueueUrl : option string;
  MaxNumberOfMessages : Z
}.

Definition InitFakeQueue (queueName : string) (FakeQueue : Queue) : Queue :=
  let FakeQueue := firstn 0 FakeQueue in
  if String.eqb queueName "nonEmptyQueue" then
    let body1 := "fake-msg-1" in
    let body2 := "fake-msg-2" in
    let m1 := mkMessage (Some body1) in
    let m2 := mkMessage (Some body2) in
    let FakeQueue := (FakeQueue ++ [m1])%list in
    (FakeQueue ++ [m2])%list
  else FakeQueue.

(** What is given is [output.QueueUrl]; the error is always nil. *)
Definition GetQueueUrl (params : option GetQueueUrlInput) : Outcome string :=
  match params with
  | None => Panicked
  | Some params =>
      match QueueName params with
      | None => Panicked
      | Some name =>
          Returned (if String.eqb name "nonEmptyQueue"
                    then "nonEmptyQueueUrl" else "emptyQueueUrl")
      end
  end.

(** The loop of [ReceiveMessage], [i] running from [i] for [n] more
    rounds: [FakeQueue[i]] past the end of the queue panics. *)
Fixpoint collect (FakeQueue : Queue) (i n : nat) (messages : list Message)
  : Outcome (list Message) :=
  match n with
  | O => Returned messages
  | S n' =>
      match nth_error FakeQueue i with
      | None => Panicked
      | Some m => collect FakeQueue (S i) n' (messages ++ [m])%list
      end
  end.

(** What is given is [output.Messages]; the error is always nil and the
    queue is left as it is. *)
Definition ReceiveMessage (params : option ReceiveMessageInput) (FakeQueue : Queue)
  : Outcome (list Message) :=
  match params with
  | None => Panicked
  | Some params =>
      match QueueUrl params with
      | None => Panicked
      | Some url =>
          if String.eqb url "nonEmptyQueueUrl"
          then collect FakeQueue 0 (Z.to_nat (MaxNumberOfMessages params)) []
          else Returned []
      end
  end.

(** [DeleteMessage] reads nothing of its parameters and returns no error. *)
Definition DeleteMessage (FakeQueue : Queue) : Queue :=
  if (0 <? length FakeQueue)%nat then skipn 1 FakeQueue else FakeQueue.

Definition receive (url : string) (max : Z) : Queue -> Outcome (list Message) :=
  ReceiveMessage (Some {| QueueUrl := Some url; MaxNumberOfMessages := max |}).

(** [k] calls of [DeleteMessage] one after the other. *)
Fixpoint deleteTimes (k : nat) (FakeQueue : Queue) : Queue :=
  match k with
  | O => FakeQueue
  | S k' => deleteTimes k' (DeleteMessage FakeQueue)
  end.

(** The URL [GetQueueUrl] gives for a queue name. *)
Definition urlOf (queueName : string) : Outcome string :=
  GetQueueUrl (Some {| QueueName := Some queueName |}).

End FakeSqs.

(** ** Reading the identifier back off standard output (the e2e test)

    [testPolicyRecommendationStatus] and [testPolicyRecommendationRetrieve]
    take the identifier of the job from what [run] printed: the last of
    the fields between blanks, less a final newline. *)
Module E2E.

(** [strings.Split(s, sep)] for a separator of one byte. *)
Fixpoint Split (s : string) (sep : ascii) : list string :=
  match s with
  | EmptyString => [""]
  | String c rest =>
      if Ascii.eqb c sep then "" :: Split rest sep
      else match Split rest sep with
           | field :: fields => String c field :: fields
           | [] => [String c ""]
           end
  end.

(** [strings.HasSuffix] and [strings.TrimSuffix]. *)
Definition HasSuffix (s suffix : string) : bool :=
  (String.length suffix <=? String.length s)%nat
  && String.eqb (substring (String.length s - String.length suffix)
                           (String.length suffix) s) suffix.

Definition TrimSuffix (s suffix : string) : string :=
  if HasSuffix s suffix
  then substring 0 (String.length s - String.length suffix) s
  else s.

(** [stdoutSlice := strings.Split(stdout, " ")] and then
    [strings.TrimSuffix(stdoutSlice[len(stdoutSlice)-1], "\n")]. *)
Definition jobId (stdout : string) : string :=
  let stdoutSlice := Split stdout " " in
  TrimSuffix (last stdoutSlice "") nl.

(** Standard output as a trace leaves it. *)
Definition stdout (t : list Event) : string := String.concat "" (printed t).

Fixpoint noBlank (s : string) : bool :=
  match s with
  | EmptyString => true
  | String c rest => negb (Ascii.eqb c " ") && noBlank rest
  end.

End E2E.

(** ** Reading a posted SparkApplication *)

(** The quantities and the executor count of a SparkApplication are set and
    are what the checks accept. *)
Definition sized (app : sparkv1.SparkApplication) : bool :=
  let driver := sparkv1.Driver (sparkv1.Spec app) in
  let executor := sparkv1.Executor (sparkv1.Spec app) in
  match sparkv1.DriverCoreRequest driver,
        sparkv1.Memory (sparkv1.DriverPodSpec driver),
        sparkv1.ExecutorCoreRequest executor,
        sparkv1.Memory (sparkv1.ExecutorPodSpec executor),
        sparkv1.Instances executor with
  | Some dc, Some dm, Some ec, Some em, Some n =>
      Regexp.matches k8sQuantitiesReg dc && Regexp.matches k8sQuantitiesReg dm
      && Regexp.matches k8sQuantitiesReg ec && Regexp.matches k8sQuantitiesReg em
      && (0 <=? n)
  | _, _, _, _, _ => false
  end.

(** A SparkApplication as the command means to submit it: in the
    flow-visibility namespace, named after an identifier that closes its
    argument list, the arguments opening with a known type, a limit that is
    not negative and the code of an option, and sized as the checks ask. *)
Definition wellFormed (app : sparkv1.SparkApplication) : Prop :=
  metav1.Namespace (sparkv1.ObjectMeta app) = flowVisibilityNS
  /\ sized app = true
  /\ exists id recoType limit code rest,
       metav1.Name (sparkv1.ObjectMeta app) = "policy-reco-" ++ id
       /\ sparkv1.Arguments (sparkv1.Spec app)
          = (["--type"; recoType; "--limit"; Itoa limit; "--option"; Itoa code]
             ++ rest ++ ["--id"; id])%list
       /\ In recoType ["initial"; "subsequent"]
       /\ 0 <= limit
       /\ In code [1; 2; 3].

(** ** Clusters and libraries that fail *)

(** A cluster whose calls on the way to the submission answer as given;
    a job that gets through is reported COMPLETED with the result
    [policy]. *)
Definition clusterAnswering (resolve create precheck post : Result unit) : Cluster :=
  {| ResolveKubeConfig := resolve;
     CreateK8sClient := create;
     PolicyRecoPreCheck := precheck;
     uuid_New := Sample.newUUID;
     Post := fun _ => post;
     getPolicyRecommendationStatus := Sample.scripted [] (Ok "COMPLETED");
     CheckClickHousePod := Ok tt;
     getPolicyRecommendationResult := fun _ _ _ _ => Ok "policy" |}.

(** ** The test logger of the snowflake commands

    [NewLogger(w)] hands [funcr.New] a callback that gets each record as it
    is rendered, with the prefix of the logger that wrote it. The writer is
    modelled by what has been written to it. *)
Module Logger.

Definition Fprintln (w args : string) : string := w ++ args ++ nl.

(** The callback: a prefixed record is formatted and thrown away. *)
Definition write (prefix args : string) (w : string) : string :=
  if negb (String.eqb prefix "") then
    let _ := prefix ++ ": " ++ args ++ nl in w
  else Fprintln w args.

(** The writer after the records [(prefix, args)], in order. *)
Fixpoint logged (records : list (string * string)) (w : string) : string :=
  match records with
  | [] => w
  | (prefix, args) :: rest => logged rest (write prefix args w)
  end.

Definition unprefixed (record : string * string) : bool := String.eqb (fst record) "".

Definition lines (records : list (string * string)) : string :=
  String.concat "" (map (fun record => snd record ++ nl) records).

End Logger.

(** A cluster in which every call succeeds, the job is reported
    COMPLETED at once, and [uuid.New] hands out [source n] as its [n]-th
    identifier. *)
Definition clusterDrawing (source : nat -> string) : Cluster :=
  {| ResolveKubeConfig := Ok tt;
     CreateK8sClient := Ok tt;
     PolicyRecoPreCheck := Ok tt;
     uuid_New := source;
     Post := fun _ => Ok tt;
     getPolicyRecommendationStatus := Sample.scripted [] (Ok "COMPLETED");
     CheckClickHousePod := Ok tt;
     getPolicyRecommendationResult := fun _ _ _ _ => Ok "" |}.

(** A library that parses the one time [known] as [Sample.lib] does and
    rejects every other time, list and URL. *)
Definition libKnowingOnly (known : string) : Lib :=
  mkLib (fun value => if String.eqb value known then Sample.parseTime value
                      else Err (Foreign "unknown"))
        (fun _ => Err (Foreign "unknown"))
        (fun _ => Err (Foreign "unknown")).

(** * Properties *)

(** ** The matcher decides the language of a pattern *)
Module RegexpFacts.
Import Regexp.

Lemma no_empty_class s : ~ Lang (Class "") s.
Proof. intros H. inversion H; subst. discriminate. Qed.

Lemma Lang_Cat_inv r1 r2 s :
  Lang (Cat r1 r2) s -> exists s1 s2, s = s1 ++ s2 /\ Lang r1 s1 /\ Lang r2 s2.
Proof. intros H. inversion H; subst. eauto. Qed.

Lemma Lang_Class_inv members s :
  Lang (Class members) s -> exists c, s = String c "" /\ mem c members = true.
Proof. intros H. inversion H; subst. eauto. Qed.

Lemma nullable_Lang r : nullable r = true <-> Lang r "".
Proof.
  induction r; simpl; split; intros H.
  - constructor.
  - reflexivity.
  - discriminate.
  - inversion H.
  - apply andb_true_iff in H as [H1 H2].
    change "" with ("" ++ ""). constructor; [apply IHr1 | apply IHr2]; assumption.
  - apply Lang_Cat_inv in H as (s1 & s2 & Heq & H1 & H2).
    destruct s1; [| discriminate]. simpl in Heq. subst s2.
    apply andb_true_iff. split; [apply IHr1 | apply IHr2]; assumption.
  - apply orb_true_iff in H as [H | H].
    + apply LAltL, IHr1, H.
    + apply LAltR, IHr2, H.
  - apply orb_true_iff. inversion H; subst; [left; apply IHr1 | right; apply IHr2]; assumption.
  - constructor.
  - reflexivity.
Qed.

(** A non-empty word of [r*] starts with a non-empty word of [r]. *)
Lemma Star_cons r c s :
  Lang (Star r) (String c s) ->
  exists s1 s2, s = s1 ++ s2 /\ Lang r (String c s1) /\ Lang (Star r) s2.
Proof.
  intros H. remember (Star r) as q eqn:Hq. remember (String c s) as w eqn:Hw.
  revert s Hw.
  induction H as [| | | | | | r' s1 s2 H1 _ H2 IH2]; intros t Hw; try discriminate.
  injection Hq as ->.
  destruct s1 as [| d s1'].
  - simpl in Hw. apply IH2; [reflexivity | assumption].
  - simpl in Hw. injection Hw as -> <-. exists s1', s2. auto.
Qed.

Lemma deriv_sound c r : forall s, Lang (deriv c r) s -> Lang r (String c s).
Proof.
  induction r; simpl; intros s H.
  - exfalso. eapply no_empty_class, H.
  - destruct (mem c members) eqn:Hm.
    + inversion H; subst. constructor. assumption.
    + exfalso. eapply no_empty_class, H.
  - assert (Hcat : forall w, Lang (Cat (deriv c r1) r2) w -> Lang (Cat r1 r2) (String c w)).
    { intros w Hw. apply Lang_Cat_inv in Hw as (s1 & s2 & -> & H1 & H2).
      change (String c (s1 ++ s2)) with (String c s1 ++ s2).
      constructor; [apply IHr1 |]; assumption. }
    destruct (nullable r1) eqn:Hn.
    + inversion H; subst.
      * apply Hcat. assumption.
      * change (String c s) with ("" ++ String c s).
        constructor; [apply nullable_Lang, Hn | apply IHr2; assumption].
    + apply Hcat, H.
  - inversion H; subst; [apply LAltL, IHr1 | apply LAltR, IHr2]; assumption.
  - apply Lang_Cat_inv in H as (s1 & s2 & -> & H1 & H2).
    change (String c (s1 ++ s2)) with (String c s1 ++ s2).
    constructor; [apply IHr |]; assumption.
Qed.

Lemma deriv_complete c r : forall s, Lang r (String c s) -> Lang (deriv c r) s.
Proof.
  induction r; simpl; intros s H.
  - inversion H.
  - apply Lang_Class_inv in H as (d & Heq & Hm).
    injection Heq as -> ->. rewrite Hm. constructor.
  - apply Lang_Cat_inv in H as (s1 & s2 & Heq & H1 & H2).
    destruct s1 as [| d s1'].
    + simpl in Heq. subst s2.
      apply nullable_Lang in H1. rewrite H1. apply LAltR, IHr2, H2.
    + simpl in Heq. injection Heq as <- ->.
      assert (Hc : Lang (Cat (deriv c r1) r2) (s1' ++ s2))
        by (constructor; [apply IHr1 |]; assumption).
      destruct (nullable r1); [apply LAltL |]; exact Hc.
  - inversion H; subst; [apply LAltL, IHr1 | apply LAltR, IHr2]; assumption.
  - apply Star_cons in H as (s1 & s2 & -> & H1 & H2).
    constructor; [apply IHr |]; assumption.
Qed.

Theorem matches_Lang : forall s r, matches r s = true <-> Lang r s.
Proof.
  induction s as [| c s IH]; intros r; simpl.
  - apply nullable_Lang.
  - rewrite IH. split; [apply deriv_sound | apply deriv_complete].
Qed.

Lemma Lang_Opt_empty r : Lang (Opt r) "".
Proof. apply LAltL. constructor. Qed.

Lemma Lang_Opt_one members c :
  mem c members = true -> Lang (Opt (Class members)) (String c "").
Proof. intros H. apply LAltR. constructor. exact H. Qed.

Lemma Lang_Star_class members s :
  all_in members s = true -> Lang (Star (Class members)) s.
Proof.
  induction s as [| c s IH]; simpl; intros H.
  - constructor.
  - apply andb_true_iff in H as [Hc Hs].
    change (String c s) with (String c "" ++ s).
    constructor; [constructor; exact Hc | apply IH, Hs].
Qed.

Lemma Lang_Plus_class members s :
  s <> "" -> all_in members s = true -> Lang (Plus (Class members)) s.
Proof.
  destruct s as [| c s]; [congruence |]. simpl. intros _ H.
  apply andb_true_iff in H as [Hc Hs].
  change (String c s) with (String c "" ++ s).
  constructor; [constructor; exact Hc | apply Lang_Star_class, Hs].
Qed.

Lemma Lang_Star_class_inv members s :
  Lang (Star (Class members)) s -> all_in members s = true.
Proof.
  intros H. remember (Star (Class members)) as q eqn:Hq.
  induction H as [| | | | | | r' s1 s2 H1 _ H2 IH2]; try discriminate.
  - reflexivity.
  - injection Hq as ->. apply Lang_Class_inv in H1 as (d & -> & Hm). simpl.
    rewrite Hm. apply IH2. reflexivity.
Qed.

Lemma Lang_Opt_class_inv members s :
  Lang (Opt (Class members)) s ->
  s = "" \/ exists c, s = String c "" /\ mem c members = true.
Proof.
  intros H. inversion H as [| | | r1 r2 w Hl | r1 r2 w Hr | |]; subst.
  - inversion Hl. auto.
  - right. apply Lang_Class_inv, Hr.
Qed.

Lemma Lang_Plus_class_inv members s :
  Lang (Plus (Class members)) s -> s <> "" /\ all_in members s = true.
Proof.
  intros H. apply Lang_Cat_inv in H as (s1 & s2 & -> & H1 & H2).
  apply Lang_Class_inv in H1 as (c & -> & Hc).
  apply Lang_Star_class_inv in H2. simpl. rewrite Hc, H2.
  split; [discriminate | reflexivity].
Qed.

End RegexpFacts.

(** ** Validation *)

(** The closure's checks are the checks of [checks], made in that order, and
    what they leave behind is [encodedArgs]. *)
Lemma validate_checks L f :
  validate L f =
    match firstFailure (checks L f) with
    | Some e => Err e
    | None => Ok (encodedArgs f (codeOf f), resourcesOf f)
    end.
Proof.
  unfold validate, checks, codeOf, encodedArgs, resourcesOf, whenGiven, conforms, MatchString.
  unfold checkType, checkLimit, checkOption, checkStartTime, checkEndTime,
    checkNsAllowList, checkExecutorInstances, checkQuantity, startTimeOf, optionCode.
  cbn [firstFailure].
  destruct (negb (String.eqb (flag_type f) "initial") && negb (String.eqb (flag_type f) "subsequent"));
    [reflexivity |].
  destruct (flag_limit f <? 0); [reflexivity |].
  destruct (String.eqb (flag_option f) "anp-deny-applied");
    [| destruct (String.eqb (flag_option f) "anp-deny-all");
       [| destruct (String.eqb (flag_option f) "k8s-np"); [| reflexivity]]].
  all: cbn [rbind firstFailure].
  all: destruct (String.eqb (flag_start_time f) ""); cbn [negb];
    [| destruct (time_Parse L (flag_start_time f)); [| reflexivity]];
    cbn [rbind firstFailure].
  all: destruct (String.eqb (flag_end_time f) ""); cbn [negb];
    [| destruct (time_Parse L (flag_end_time f)) as [te | ?]; [| reflexivity];
       match goal with |- context [After te ?t] => destruct (After te t) end;
       cbn [negb]; [| reflexivity]];
    cbn [rbind firstFailure].
  all: destruct (String.eqb (flag_ns_allow_list f) ""); cbn [negb];
    [| destruct (json_Unmarshal L (flag_ns_allow_list f)); [| reflexivity]];
    cbn [rbind firstFailure].
  all: destruct (flag_executor_instances f <? 0); [reflexivity |].
  all: destruct (Regexp.matches k8sQuantitiesReg (flag_driver_core_request f));
    cbn [negb rbind firstFailure]; [| reflexivity].
  all: destruct (Regexp.matches k8sQuantitiesReg (flag_driver_memory f));
    cbn [negb rbind firstFailure]; [| reflexivity].
  all: destruct (Regexp.matches k8sQuantitiesReg (flag_executor_core_request f));
    cbn [negb rbind firstFailure]; [| reflexivity].
  all: destruct (Regexp.matches k8sQuantitiesReg (flag_executor_memory f));
    cbn [negb rbind firstFailure]; [| reflexivity].
  all: reflexivity.
Qed.

Lemma firstFailure_In cs e : firstFailure cs = Some e -> In (Some e) cs.
Proof.
  induction cs as [| [e' |] cs IH]; simpl; intros H.
  - discriminate.
  - left. exact H.
  - right. apply IH, H.
Qed.

Lemma In_firstFailure cs e0 : In (Some e0) cs -> exists e, firstFailure cs = Some e.
Proof.
  induction cs as [| [e' |] cs IH]; simpl; intros H.
  - contradiction.
  - eauto.
  - destruct H as [H | H]; [discriminate | auto].
Qed.

(** Every error of a check is one the closure formats itself. *)
Lemma checks_Errorf L f e : In (Some e) (checks L f) -> exists msg, e = Errorf msg.
Proof.
  unfold checks, checkType, checkLimit, checkOption, checkStartTime, checkEndTime,
    checkNsAllowList, checkExecutorInstances, checkQuantity.
  intros H. simpl in H.
  repeat match type of H with
         | _ \/ _ => destruct H as [H | H]
         end;
    try contradiction;
    repeat match type of H with
           | context [if ?b then _ else _] => destruct b
           | context [match ?x with _ => _ end] => destruct x
           end;
    try discriminate; injection H as <-; eexists; reflexivity.
Qed.

(** ** The stages of [RunE] *)

Lemma submitJob_invalid L C f e st :
  validate L f = Err e -> submitJob L C f st = (Err e, st).
Proof. intros H. unfold submitJob. rewrite H. reflexivity. Qed.

Lemma RunE_invalid L C f e st :
  validate L f = Err e -> RunE L C f st = (Err e, st).
Proof.
  intros H. unfold RunE, bind. rewrite (submitJob_invalid L C f e st H). reflexivity.
Qed.

(** What [submitJob] does once the checks have passed. *)
Lemma submitJob_valid L C f args res st :
  validate L f = Ok (args, res) ->
  ResolveKubeConfig C = Ok tt -> CreateK8sClient C = Ok tt ->
  PolicyRecoPreCheck C = Ok tt ->
  let id := uuid_New C (drawn st) in
  let app := recommendationApplication (args ++ ["--id"; id])%list res id in
  submitJob L C f st =
    (match Post C app with Ok _ => Ok id | Err e => Err e end, submitted st app).
Proof.
  intros Hv Hr Hc Hp id app. unfold submitJob. rewrite Hv.
  unfold bind, wrapErr, call, bind, emit, uuid_New_String, ret. cbn.
  rewrite Hr, Hc, Hp. cbn. fold id. fold app.
  unfold submitted. rewrite <- !app_assoc. cbn.
  destruct (Post C app) as [[] | e]; reflexivity.
Qed.

(** A submission that succeeded went through every step. *)
Lemma submitJob_inv L C f st id st' :
  submitJob L C f st = (Ok id, st') ->
  exists args res,
    validate L f = Ok (args, res) /\
    id = uuid_New C (drawn st) /\
    st' = submitted st (recommendationApplication (args ++ ["--id"; id])%list res id).
Proof.
  unfold submitJob. destruct (validate L f) as [[args res] | e] eqn:Hv.
  - unfold bind, wrapErr, call, bind, emit, uuid_New_String, ret. cbn.
    destruct (ResolveKubeConfig C) as [[] | ?]; [| discriminate].
    destruct (CreateK8sClient C) as [[] | ?]; [| discriminate].
    destruct (PolicyRecoPreCheck C) as [[] | ?]; [| discriminate]. cbn.
    destruct (Post C _) as [[] | ?]; [| discriminate].
    intros H. injection H as <- <-. exists args, res.
    unfold submitted. rewrite <- !app_assoc. cbn. auto.
  - discriminate.
Qed.

(** ** The polling loop *)

Lemma afterQueries_step st id n d1 d2 :
  afterQueries (afterQueries st id 1 d1) id n d2 = afterQueries st id (S n) (d1 + d2).
Proof.
  unfold afterQueries. cbn [drawn queries slept trace]. f_equal.
  - lia.
  - lia.
  - rewrite <- app_assoc. reflexivity.
Qed.

Lemma stillRunning_head C id st k :
  stillRunning C id st (S k) ->
  exists state, getPolicyRecommendationStatus C (queries st) id = Ok state
                /\ nonTerminal state = true.
Proof.
  intros H. destruct (H 0%nat) as (state & Hq & Hn); [lia |].
  rewrite Nat.add_0_r in Hq. eauto.
Qed.

Lemma stillRunning_tail C id st k d :
  stillRunning C id st (S k) -> stillRunning C id (afterQueries st id 1 d) k.
Proof.
  intros H i Hi. destruct (H (S i)) as (state & Hq & Hn); [lia |].
  exists state. split; [| exact Hn].
  cbn [afterQueries queries]. rewrite <- Hq. f_equal. lia.
Qed.

(** One round of the loop: the wait, the query, and what the condition
    makes of the answer. *)
Lemma round_run {A : Type} C id d (k : bool -> M A) st :
  (sleep d ;; ok <- pollCondition C id ;; k ok) st =
    let st' := afterQueries st id 1 d in
    match getPolicyRecommendationStatus C (queries st) id with
    | Err e => (Err e, st')
    | Ok state =>
        if String.eqb state "COMPLETED" then k true st'
        else if isFailureState state then (Err (errJobFailed state), st')
        else k false st'
    end.
Proof.
  unfold bind, sleep, pollCondition, bind, statusQuery. cbn [queries drawn slept trace].
  replace (mkState (drawn st) (S (queries st)) (slept st + d)
                   (trace st ++ [EvGetStatus id])%list)
    with (afterQueries st id 1 d)
    by (unfold afterQueries; cbn; f_equal; lia).
  cbn zeta.
  destruct (getPolicyRecommendationStatus C (queries st) id) as [state | e];
    [| reflexivity].
  destruct (String.eqb state "COMPLETED"); [reflexivity |].
  destruct (isFailureState state); reflexivity.
Qed.

(** The loop unfolded up to query number [k], the answers before it
    leaving the poll running. *)
Lemma waitFor_scan C id interval rest : forall k ticks st,
  (k <= ticks)%nat -> stillRunning C id st k ->
  waitFor ticks interval rest (pollCondition C id) st =
    let st' := afterQueries st id (S k) (waited ticks interval rest k) in
    match getPolicyRecommendationStatus C (queries st + k) id with
    | Err e => (Err e, st')
    | Ok state =>
        if String.eqb state "COMPLETED" then (Ok tt, st')
        else if isFailureState state then (Err (errJobFailed state), st')
        else if (k =? ticks)%nat then (Err ErrWaitTimeout, st')
        else waitFor (ticks - S k) interval rest (pollCondition C id) st'
    end.
Proof.
  induction k as [| k IH]; intros ticks st Hk Hrun.
  - rewrite Nat.add_0_r. cbn zeta.
    destruct ticks as [| n]; cbn [waitFor Nat.eqb Nat.sub]; rewrite round_run; cbn zeta;
      unfold waited; cbn [Nat.ltb Nat.leb].
    + replace (Z.of_nat 0 * interval + rest) with rest by lia. reflexivity.
    + replace (Z.of_nat 1 * interval) with interval by lia.
      rewrite Nat.sub_0_r. reflexivity.
  - destruct ticks as [| n]; [lia |].
    destruct (stillRunning_head C id st k Hrun) as (state0 & Hq0 & Hn0).
    unfold nonTerminal in Hn0. apply andb_true_iff in Hn0 as [Hc Hf].
    apply negb_true_iff in Hc, Hf.
    cbn [waitFor]. rewrite round_run. cbn zeta. rewrite Hq0, Hc, Hf.
    rewrite (IH n (afterQueries st id 1 interval)); [| lia | apply stillRunning_tail, Hrun].
    cbn zeta. rewrite afterQueries_step.
    replace (queries (afterQueries st id 1 interval) + k)%nat with (queries st + S k)%nat
      by (cbn; lia).
    replace (interval + waited n interval rest k) with (waited (S n) interval rest (S k)).
    2:{ unfold waited. change (S k <? S n)%nat with (k <? n)%nat.
        destruct (k <? n)%nat; lia. }
    change (S k =? S n)%nat with (k =? n)%nat.
    change (S n - S (S k))%nat with (n - S k)%nat.
    reflexivity.
Qed.

Lemma pollStatus_waitFor C id :
  pollStatus C id = waitFor pollTicks statusCheckPollInterval 0 (pollCondition C id).
Proof. reflexivity. Qed.

Lemma isFailureState_iff state :
  isFailureState state = true <->
  In state ["FAILED"; "SUBMISSION_FAILED"; "FAILING"; "INVALIDATING"].
Proof.
  unfold isFailureState. rewrite !orb_true_iff, !String.eqb_eq. simpl.
  intuition congruence.
Qed.

Lemma failure_not_completed state :
  isFailureState state = true -> String.eqb state "COMPLETED" = false.
Proof.
  intros H. apply isFailureState_iff in H. simpl in H.
  destruct H as [<- | [<- | [<- | [<- | []]]]]; reflexivity.
Qed.

Lemma nonTerminal_iff state :
  nonTerminal state = true <->
  state <> "COMPLETED" /\
  ~ In state ["FAILED"; "SUBMISSION_FAILED"; "FAILING"; "INVALIDATING"].
Proof.
  unfold nonTerminal. rewrite andb_true_iff, !negb_true_iff.
  rewrite String.eqb_neq, <- isFailureState_iff.
  destruct (isFailureState state); intuition congruence.
Qed.

Lemma pollWaited_last : pollWaited pollTicks = statusCheckPollTimeout.
Proof. reflexivity. Qed.

Lemma pollWaited_before k :
  (k < pollTicks)%nat -> pollWaited k = Z.of_nat (S k) * statusCheckPollInterval.
Proof.
  intros H. unfold pollWaited, waited.
  destruct (Nat.ltb_spec k pollTicks); [reflexivity | lia].
Qed.

(** ** What the stages leave untouched *)

Lemma posted_app t1 t2 : posted (t1 ++ t2) = (posted t1 ++ posted t2)%list.
Proof.
  induction t1 as [| ev t1 IH]; simpl; [reflexivity |].
  destruct ev; simpl; rewrite IH; reflexivity.
Qed.

Lemma printed_app t1 t2 : printed (t1 ++ t2) = (printed t1 ++ printed t2)%list.
Proof.
  induction t1 as [| ev t1 IH]; simpl; [reflexivity |].
  destruct ev; simpl; rewrite IH; reflexivity.
Qed.

Lemma posted_queries id n : posted (repeat (EvGetStatus id) n) = [].
Proof. induction n; simpl; auto. Qed.

Lemma keeps_refl st : keeps st st.
Proof. split; reflexivity. Qed.

Lemma keeps_trans st1 st2 st3 : keeps st1 st2 -> keeps st2 st3 -> keeps st1 st3.
Proof. intros [H1 H2] [H3 H4]. split; congruence. Qed.

Lemma keeps_afterQueries st id n d : keeps st (afterQueries st id n d).
Proof.
  split; cbn; [reflexivity |].
  rewrite posted_app, posted_queries, app_nil_r. reflexivity.
Qed.

Lemma waitFor_keeps C id interval rest : forall ticks st,
  keeps st (snd (waitFor ticks interval rest (pollCondition C id) st)).
Proof.
  induction ticks as [| n IH]; intros st; cbn [waitFor]; rewrite round_run; cbn zeta;
    destruct (getPolicyRecommendationStatus C (queries st) id) as [state | e];
    try apply keeps_afterQueries;
    destruct (String.eqb state "COMPLETED"); try apply keeps_afterQueries;
    destruct (isFailureState state); try apply keeps_afterQueries.
  eapply keeps_trans; [apply (keeps_afterQueries st id 1 interval) | apply IH].
Qed.

Lemma fetchResult_keeps L C f id st : keeps st (snd (fetchResult L C f id st)).
Proof.
  unfold fetchResult, bind, call, bind, emit, ret, fail.
  destruct (negb (String.eqb (flag_clickhouse_endpoint f) ""));
    [destruct (url_ParseRequestURI L (flag_clickhouse_endpoint f)) |];
    cbn; try apply keeps_refl;
    destruct (CheckClickHousePod C); cbn;
    try (destruct (getPolicyRecommendationResult C _ _ _ _) as [r |]; cbn;
         [destruct (negb (String.eqb r "")) |]; cbn);
    split; cbn; try reflexivity;
    rewrite ?posted_app; cbn; rewrite ?app_nil_r; reflexivity.
Qed.

(** ** The claims about the poller *)

(** C1. Poller determinism. Let the first [k] answers to the status query
    report states other than COMPLETED and the four failure states, with
    query number [k] within the ticks of the timeout. Then the loop has
    made exactly [k + 1] queries, one interval apart, when it ends: in
    success if answer [k] is COMPLETED; if it is FAILED, SUBMISSION_FAILED,
    FAILING or INVALIDATING, in the error whose text is
    policy recommendation job failed, state: <the state observed>, so that
    two different states give two different errors; and, when [k] is the
    query made as the timeout expires and its answer is yet another state,
    in [ErrWaitTimeout], which is no failure-state error. Any state but
    those five leaves the loop running. *)
Theorem poller_determinism C id st k :
  (k <= pollTicks)%nat ->
  stillRunning C id st k ->
  let answer := getPolicyRecommendationStatus C (queries st + k) id in
  let st' := afterQueries st id (S k) (pollWaited k) in
  (answer = Ok "COMPLETED" -> pollStatus C id st = (Ok tt, st'))
  /\ (forall state,
        answer = Ok state ->
        In state ["FAILED"; "SUBMISSION_FAILED"; "FAILING"; "INVALIDATING"] ->
        pollStatus C id st
        = (Err (Errorf ("policy recommendation job failed, state: " ++ state)), st')
        /\ Error (Errorf ("policy recommendation job failed, state: " ++ state))
           = "policy recommendation job failed, state: " ++ state)
  /\ (forall state,
        answer = Ok state ->
        state <> "COMPLETED" ->
        ~ In state ["FAILED"; "SUBMISSION_FAILED"; "FAILING"; "INVALIDATING"] ->
        if (k =? pollTicks)%nat
        then pollStatus C id st = (Err ErrWaitTimeout, st')
             /\ slept st' = slept st + statusCheckPollTimeout
        else stillRunning C id st (S k))
  /\ (forall state,
        ErrWaitTimeout <> Errorf ("policy recommendation job failed, state: " ++ state))
  /\ (forall state1 state2,
        Errorf ("policy recommendation job failed, state: " ++ state1)
        = Errorf ("policy recommendation job failed, state: " ++ state2) ->
        state1 = state2)
  /\ (forall state,
        nonTerminal state = true <->
        state <> "COMPLETED"
        /\ ~ In state ["FAILED"; "SUBMISSION_FAILED"; "FAILING"; "INVALIDATING"])
  /\ ((k < pollTicks)%nat ->
      slept st' = slept st + Z.of_nat (S k) * statusCheckPollInterval).
Proof.
  intros Hk Hrun answer st'.
  pose proof (waitFor_scan C id statusCheckPollInterval 0 k pollTicks st Hk Hrun) as Hscan.
  rewrite <- pollStatus_waitFor in Hscan. cbn zeta in Hscan.
  fold answer in Hscan. fold (pollWaited k) in Hscan. fold st' in Hscan.
  split; [| split; [| split; [| split; [| split; [| split]]]]].
  - intros Ha. rewrite Hscan, Ha. reflexivity.
  - intros state Ha Hin. split; [| reflexivity]. apply isFailureState_iff in Hin.
    rewrite Hscan, Ha, (failure_not_completed state Hin), Hin. reflexivity.
  - intros state Ha Hc Hf.
    assert (Hn : nonTerminal state = true) by (apply nonTerminal_iff; auto).
    destruct (Nat.eqb_spec k pollTicks) as [-> | Hne].
    + unfold nonTerminal in Hn. apply andb_true_iff in Hn as [Hc' Hf'].
      apply negb_true_iff in Hc', Hf'.
      rewrite Hscan, Ha, Hc', Hf'. split; [reflexivity |].
      subst st'. cbn [afterQueries slept]. rewrite pollWaited_last. reflexivity.
    + intros i Hi. destruct (Nat.eq_dec i k) as [-> | Hik].
      * exists state. auto.
      * apply Hrun. lia.
  - discriminate.
  - intros state1 state2 Heq. injection Heq as Heq. exact Heq.
  - intros state. apply nonTerminal_iff.
  - intros Hlt. subst st'. cbn [afterQueries slept].
    rewrite (pollWaited_before k Hlt). reflexivity.
Qed.

(** C9. A status query that returns an error ends the loop at once: the
    error is returned as it is, the failed query is the last one made, and
    [RunE] returns the same error without fetching anything. *)
Theorem query_error_aborts C id st k e :
  (k <= pollTicks)%nat ->
  stillRunning C id st k ->
  getPolicyRecommendationStatus C (queries st + k) id = Err e ->
  let st' := afterQueries st id (S k) (pollWaited k) in
  pollStatus C id st = (Err e, st')
  /\ queries st' = (queries st + S k)%nat
  /\ forall L f st0,
       submitJob L C f st0 = (Ok id, st) -> flag_wait f = true ->
       RunE L C f st0 = (Err e, st').
Proof.
  intros Hk Hrun Ha st'.
  pose proof (waitFor_scan C id statusCheckPollInterval 0 k pollTicks st Hk Hrun) as Hscan.
  rewrite <- pollStatus_waitFor in Hscan. cbn zeta in Hscan. rewrite Ha in Hscan.
  fold (pollWaited k) in Hscan. fold st' in Hscan.
  repeat split.
  - exact Hscan.
  - intros L f st0 Hs Hw. unfold RunE. unfold bind at 1. rewrite Hs, Hw.
    unfold bind. rewrite Hscan. reflexivity.
Qed.

Lemma poller_determinism_witness :
  let job := "job" in
  pollStatus (Sample.cluster [Ok "RUNNING"; Ok "RUNNING"; Ok "COMPLETED"] (Ok "RUNNING") (Ok ""))
             job initState
    = (Ok tt, mkState 0 3 (3 * statusCheckPollInterval)
                      [EvGetStatus job; EvGetStatus job; EvGetStatus job])
  /\ pollStatus (Sample.cluster [Ok "RUNNING"; Ok "FAILED"] (Ok "RUNNING") (Ok ""))
                job initState
    = (Err (Errorf "policy recommendation job failed, state: FAILED"),
       mkState 0 2 (2 * statusCheckPollInterval) [EvGetStatus job; EvGetStatus job])
  /\ pollStatus (Sample.cluster [Ok "SUBMISSION_FAILED"] (Ok "RUNNING") (Ok ""))
                job initState
    = (Err (Errorf "policy recommendation job failed, state: SUBMISSION_FAILED"),
       mkState 0 1 statusCheckPollInterval [EvGetStatus job])
  /\ pollStatus (Sample.cluster [Ok "FAILING"] (Ok "RUNNING") (Ok "")) job initState
    = (Err (Errorf "policy recommendation job failed, state: FAILING"),
       mkState 0 1 statusCheckPollInterval [EvGetStatus job])
  /\ pollStatus (Sample.cluster [Ok "INVALIDATING"] (Ok "RUNNING") (Ok "")) job initState
    = (Err (Errorf "policy recommendation job failed, state: INVALIDATING"),
       mkState 0 1 statusCheckPollInterval [EvGetStatus job])
  /\ pollStatus (Sample.cluster [] (Ok "RUNNING") (Ok "")) job initState
    = (Err ErrWaitTimeout,
       afterQueries initState job (S pollTicks) statusCheckPollTimeout).
Proof.
  intros job.
  assert (Hfirst : forall script, stillRunning (Sample.cluster script (Ok "RUNNING") (Ok ""))
                                               job initState 0).
  { intros script i Hi. lia. }
  split; [| split; [| split; [| split; [| split]]]].
  - assert (Hk : (2 <= pollTicks)%nat) by (vm_compute; lia).
    assert (Hrun : stillRunning
              (Sample.cluster [Ok "RUNNING"; Ok "RUNNING"; Ok "COMPLETED"] (Ok "RUNNING") (Ok ""))
              job initState 2).
    { intros i Hi. exists "RUNNING". destruct i as [| [| i]]; [split; reflexivity .. | lia]. }
    destruct (poller_determinism _ job initState 2 Hk Hrun) as (Hdone & _).
    exact (Hdone eq_refl).
  - assert (Hk : (1 <= pollTicks)%nat) by (vm_compute; lia).
    assert (Hrun : stillRunning
              (Sample.cluster [Ok "RUNNING"; Ok "FAILED"] (Ok "RUNNING") (Ok ""))
              job initState 1).
    { intros i Hi. exists "RUNNING". destruct i as [| i]; [split; reflexivity | lia]. }
    destruct (poller_determinism _ job initState 1 Hk Hrun) as (_ & Hfailed & _).
    exact (proj1 (Hfailed "FAILED" eq_refl (or_introl eq_refl))).
  - destruct (poller_determinism _ job initState 0 (Nat.le_0_l _)
                (Hfirst [Ok "SUBMISSION_FAILED"])) as (_ & Hfailed & _).
    exact (proj1 (Hfailed "SUBMISSION_FAILED" eq_refl (or_intror (or_introl eq_refl)))).
  - destruct (poller_determinism _ job initState 0 (Nat.le_0_l _)
                (Hfirst [Ok "FAILING"])) as (_ & Hfailed & _).
    exact (proj1 (Hfailed "FAILING" eq_refl
                    (or_intror (or_intror (or_introl eq_refl))))).
  - destruct (poller_determinism _ job initState 0 (Nat.le_0_l _)
                (Hfirst [Ok "INVALIDATING"])) as (_ & Hfailed & _).
    exact (proj1 (Hfailed "INVALIDATING" eq_refl
                    (or_intror (or_intror (or_intror (or_introl eq_refl)))))).
  - assert (Hrun : stillRunning (Sample.cluster [] (Ok "RUNNING") (Ok ""))
                                job initState pollTicks).
    { intros i Hi. exists "RUNNING". split; [| reflexivity].
      cbn. destruct i; reflexivity. }
    destruct (poller_determinism _ job initState pollTicks (le_n _) Hrun)
      as (_ & _ & Hother & _).
    assert (Hlast : getPolicyRecommendationStatus (Sample.cluster [] (Ok "RUNNING") (Ok ""))
                      (queries initState + pollTicks) job = Ok "RUNNING").
    { cbn. destruct pollTicks; reflexivity. }
    specialize (Hother "RUNNING" Hlast).
    rewrite Nat.eqb_refl in Hother.
    destruct Hother as [Hout _].
    + discriminate.
    + simpl. intros [H | [H | [H | [H | []]]]]; discriminate.
    + exact Hout.
Defined.

Lemma query_error_aborts_witness :
  let C := Sample.cluster [Ok "RUNNING"; Err (Foreign "connection refused")]
                          (Ok "COMPLETED") (Ok "") in
  let run := RunE Sample.lib C (Sample.withWait defaultFlags) initState in
  fst run = Err (Foreign "connection refused")
  /\ queries (snd run) = 2%nat
  /\ printed (trace (snd run)) = [].
Proof.
  intros C run.
  set (id := Sample.newUUID 0).
  set (st := submitted initState
               (recommendationApplication
                  (encodedArgs defaultFlags 1 ++ ["--id"; id])%list
                  (resourcesOf defaultFlags) id)).
  assert (Hk : (1 <= pollTicks)%nat) by (vm_compute; lia).
  assert (Hrun : stillRunning C id st 1).
  { intros i Hi. exists "RUNNING". destruct i as [| i]; [split; reflexivity | lia]. }
  destruct (query_error_aborts C id st 1 (Foreign "connection refused") Hk Hrun eq_refl)
    as (_ & _ & Hrune).
  specialize (Hrune Sample.lib (Sample.withWait defaultFlags) initState eq_refl eq_refl).
  subst run. rewrite Hrune. split; [| split]; reflexivity.
Defined.

(** ** The claims about validation *)

(** C2. When a check fails on the flags, validation fails with the error of
    the first check that fails, an error the command words itself; [RunE]
    returns that error and leaves the world as it found it: no identifier
    drawn, no SparkApplication built or posted, nothing printed. *)
Theorem malformed_input_rejected L C f st e0 :
  In (Some e0) (checks L f) ->
  exists e msg,
    firstFailure (checks L f) = Some e
    /\ e = Errorf msg
    /\ validate L f = Err e
    /\ RunE L C f st = (Err e, st).
Proof.
  intros Hin. destruct (In_firstFailure _ _ Hin) as (e & He).
  destruct (checks_Errorf L f e (firstFailure_In _ _ He)) as (msg & Hmsg).
  assert (Hv : validate L f = Err e) by (rewrite validate_checks, He; reflexivity).
  exists e, msg. repeat split; auto using RunE_invalid.
Qed.

Lemma malformed_input_rejected_witness :
  let C := Sample.cluster [] (Ok "COMPLETED") (Ok "") in
  let run f := RunE Sample.lib C f initState in
  run (Sample.request "initial" (-1) "anp-deny-applied" "" "" "200m")
    = (Err (Errorf "limit should be an integer >= 0"), initState)
  /\ run (Sample.request "initial" 10 "bogus" "" "" "200m") = (Err errOption, initState)
  /\ run (Sample.request "initial" 10 "k8s-np"
                         "2022-01-31 23:59:59" "2022-01-01 00:00:00" "200m")
    = (Err (Errorf "end-time should be after start-time"), initState)
  /\ run (Sample.request "initial" 10 "k8s-np" "" "" "1BB")
    = (Err (Errorf "driver-core-request should conform to the Kubernetes convention"),
       initState)
  /\ run (Sample.request "bogus" (-1) "bogus" "" "" "1BB")
    = (Err (Errorf "recommendation type should be 'initial' or 'subsequent'"), initState).
Proof.
  intros C run.
  assert (Huse : forall f e,
             firstFailure (checks Sample.lib f) = Some e ->
             run f = (Err e, initState)).
  { intros f e He.
    destruct (malformed_input_rejected Sample.lib C f initState e (firstFailure_In _ _ He))
      as (e' & msg & He' & _ & _ & Hrun).
    rewrite He in He'. injection He' as <-. exact Hrun. }
  split; [| split; [| split; [| split]]]; apply Huse; reflexivity.
Defined.

Lemma optionCode_table name code :
  optionCode name = Some code <-> In (name, code) optionTable.
Proof.
  unfold optionCode, optionTable. simpl. split.
  - destruct (String.eqb_spec name "anp-deny-applied") as [-> |];
      [intros H; injection H as <-; auto |].
    destruct (String.eqb_spec name "anp-deny-all") as [-> |];
      [intros H; injection H as <-; auto |].
    destruct (String.eqb_spec name "k8s-np") as [-> |];
      [intros H; injection H as <-; auto 6 | discriminate].
  - intros [H | [H | [H | []]]]; injection H as <- <-; reflexivity.
Qed.

Lemma validate_Ok_checks L f args res :
  validate L f = Ok (args, res) ->
  firstFailure (checks L f) = None
  /\ args = encodedArgs f (codeOf f) /\ res = resourcesOf f.
Proof.
  rewrite validate_checks. destruct (firstFailure (checks L f)); [discriminate |].
  intros H. injection H as <- <-. auto.
Qed.

(** C3. The option is one of the three words of the vocabulary and goes
    into the argument list as [--option] followed by its code, 1 for
    anp-deny-applied, 2 for anp-deny-all, 3 for k8s-np, right after the type
    and the limit; the SparkApplication posted carries that list. Any other
    option is rejected: validation fails, with the option error unless the
    type or the limit was refused first, and nothing is submitted. *)
Theorem option_code_encoded L C f :
  let encoded code := ["--type"; flag_type f; "--limit"; Itoa (flag_limit f);
                       "--option"; Itoa code] in
  (forall args res, validate L f = Ok (args, res) ->
     exists code rest,
       In (flag_option f, code) optionTable /\ args = (encoded code ++ rest)%list)
  /\ (forall st id st', submitJob L C f st = (Ok id, st') ->
     exists code rest app,
       In (flag_option f, code) optionTable
       /\ posted (trace st') = (posted (trace st) ++ [app])%list
       /\ sparkv1.Arguments (sparkv1.Spec app) = (encoded code ++ rest)%list)
  /\ ((forall code, ~ In (flag_option f, code) optionTable) ->
      exists e,
        firstFailure [checkType f; checkLimit f; Some errOption] = Some e
        /\ validate L f = Err e
        /\ forall st, RunE L C f st = (Err e, st)).
Proof.
  intros encoded.
  assert (Hargs : forall args res, validate L f = Ok (args, res) ->
     exists code rest,
       In (flag_option f, code) optionTable /\ args = (encoded code ++ rest)%list).
  { intros args res Hv. apply validate_Ok_checks in Hv as (Hff & -> & _).
    unfold checks in Hff. cbn [firstFailure] in Hff.
    destruct (checkType f); [discriminate |].
    destruct (checkLimit f); [discriminate |].
    unfold checkOption in Hff. unfold codeOf.
    destruct (optionCode (flag_option f)) as [code |] eqn:Hc; [| discriminate].
    exists code. eexists. split; [apply optionCode_table, Hc |].
    unfold encodedArgs, encoded. reflexivity. }
  split; [exact Hargs | split].
  - intros st id st' Hs. apply submitJob_inv in Hs as (args & res & Hv & -> & ->).
    destruct (Hargs args res Hv) as (code & rest & Hin & ->).
    exists code. eexists. eexists. split; [exact Hin | split].
    + unfold submitted. cbn [trace]. rewrite posted_app. reflexivity.
    + unfold encoded. cbn. reflexivity.
  - intros Hnone.
    assert (Hc : optionCode (flag_option f) = None).
    { destruct (optionCode (flag_option f)) as [code |] eqn:Hc; [| reflexivity].
      apply optionCode_table in Hc. destruct (Hnone code Hc). }
    assert (Hff : firstFailure (checks L f)
                  = firstFailure [checkType f; checkLimit f; Some errOption]).
    { unfold checks, checkOption. rewrite Hc. cbn [firstFailure].
      destruct (checkType f); [reflexivity |].
      destruct (checkLimit f); reflexivity. }
    assert (He : exists e, firstFailure [checkType f; checkLimit f; Some errOption] = Some e).
    { apply (In_firstFailure _ errOption). simpl. auto. }
    destruct He as (e & He). exists e.
    assert (Hv : validate L f = Err e) by (rewrite validate_checks, Hff, He; reflexivity).
    repeat split; auto using RunE_invalid.
Qed.

Lemma option_code_encoded_witness :
  let C := Sample.cluster [] (Ok "COMPLETED") (Ok "") in
  let f := Sample.request "initial" 10000 "anp-deny-applied"
                          "2022-01-01 00:00:00" "2022-01-31 23:59:59" "200m" in
  (exists app,
      posted (trace (snd (submitJob Sample.lib C f initState))) = [app]
      /\ exists rest, sparkv1.Arguments (sparkv1.Spec app)
                      = (["--type"; "initial"; "--limit"; "10000"; "--option"; "1"] ++ rest)%list)
  /\ RunE Sample.lib C (Sample.request "initial" 10000 "anp-deny-some" "" "" "200m") initState
     = (Err errOption, initState).
Proof.
  intros C f. split.
  - destruct (option_code_encoded Sample.lib C f) as (_ & Hpost & _).
    destruct (Hpost initState (Sample.newUUID 0)
                    (snd (submitJob Sample.lib C f initState)) eq_refl)
      as (code & rest & app & Hin & Happ & Hargs).
    exists app. split; [exact Happ |]. exists rest.
    simpl in Hin. destruct Hin as [H | [H | [H | []]]]; try discriminate.
    injection H as <-. exact Hargs.
  - destruct (option_code_encoded Sample.lib C
                (Sample.request "initial" 10000 "anp-deny-some" "" "" "200m"))
      as (_ & _ & Hrej).
    destruct Hrej as (e & He & _ & Hrun).
    + intros code. simpl. intros [H | [H | [H | []]]]; discriminate.
    + cbn in He. injection He as <-. apply Hrun.
Defined.

Lemma After_irrefl t : After t t = false.
Proof.
  unfold After. rewrite !Z.ltb_irrefl, andb_false_r. reflexivity.
Qed.

Lemma validate_Err_iff L f : is_err (validate L f) = true <-> firstFailure (checks L f) <> None.
Proof.
  rewrite validate_checks. destruct (firstFailure (checks L f)); simpl; split;
    congruence.
Qed.

Lemma firstFailure_app cs1 cs2 :
  firstFailure (cs1 ++ cs2) =
    match firstFailure cs1 with Some e => Some e | None => firstFailure cs2 end.
Proof.
  induction cs1 as [| [e |] cs1 IH]; simpl; auto.
Qed.

(** *** [time.Parse] on the timestamps of the grammar *)

Lemma digitChar_digit n :
  0 <= n < 10 ->
  Sample.isDigit (digitChar n) = true /\ Sample.digit (digitChar n) = n
  /\ Ascii.eqb (digitChar n) " " = false.
Proof.
  intros Hn.
  assert (Hin : In n (List.map Z.of_nat (seq 0 10))) by (simpl; lia).
  simpl in Hin.
  repeat (destruct Hin as [<- | Hin]; [repeat split; reflexivity |]).
  contradiction.
Qed.

Lemma two_digits n : 0 <= n < 100 -> 0 <= n / 10 < 10 /\ 0 <= n mod 10 < 10.
Proof.
  intros Hn. split.
  - split; [apply Z.div_pos; lia | apply Z.div_lt_upper_bound; lia].
  - apply Z.mod_pos_bound. lia.
Qed.

Lemma getnum_two n rest fixed :
  0 <= n < 100 -> GoTime.getnum (two n ++ rest) fixed = Some (n, rest).
Proof.
  intros Hn. destruct (two_digits n Hn) as [Hhi Hlo].
  destruct (digitChar_digit _ Hhi) as (Hd1 & Hv1 & _).
  destruct (digitChar_digit _ Hlo) as (Hd2 & Hv2 & _).
  unfold two. cbn [append GoTime.getnum]. rewrite Hd1, Hd2, Hv1, Hv2. cbn [negb].
  f_equal. f_equal. pose proof (Z.div_mod n 10). lia.
Qed.

Lemma longYear_four year rest :
  0 <= year < 10000 -> GoTime.longYear (four year ++ rest) = Some (year, rest).
Proof.
  intros Hy.
  assert (Hhi : 0 <= year / 100 < 100).
  { split; [apply Z.div_pos; lia | apply Z.div_lt_upper_bound; lia]. }
  assert (Hlo : 0 <= year mod 100 < 100) by (apply Z.mod_pos_bound; lia).
  destruct (two_digits _ Hhi) as [H1 H2]. destruct (two_digits _ Hlo) as [H3 H4].
  destruct (digitChar_digit _ H1) as (Hd1 & Hv1 & _).
  destruct (digitChar_digit _ H2) as (Hd2 & Hv2 & _).
  destruct (digitChar_digit _ H3) as (Hd3 & Hv3 & _).
  destruct (digitChar_digit _ H4) as (Hd4 & Hv4 & _).
  unfold GoTime.longYear, four, two. cbn [append Sample.digits].
  rewrite Hd1, Hd2, Hd3, Hd4, Hv1, Hv2, Hv3, Hv4.
  f_equal. f_equal.
  pose proof (Z.div_mod year 100). pose proof (Z.div_mod (year / 100) 10).
  pose proof (Z.div_mod (year mod 100) 10). lia.
Qed.

Lemma skip_space_two n rest :
  0 <= n < 100 ->
  GoTime.skip (String " " (two n ++ rest)) " " = Some (two n ++ rest).
Proof.
  intros Hn. destruct (two_digits n Hn) as [Hhi _].
  destruct (digitChar_digit _ Hhi) as (_ & _ & Hsp).
  unfold two, GoTime.skip. cbn [append].
  change (Ascii.eqb " " " ") with true. cbn [GoTime.cutspace].
  change (Ascii.eqb " " " ") with true. cbn iota. rewrite Hsp. reflexivity.
Qed.

Lemma append_assoc (s1 s2 s3 : string) : (s1 ++ s2) ++ s3 = s1 ++ (s2 ++ s3).
Proof. induction s1 as [| c s1 IH]; simpl; [| rewrite IH]; reflexivity. Qed.

Lemma spelled_two n rest grammar :
  0 <= n < 100 ->
  spelled (Digit :: Digit :: grammar) (two n ++ rest) = spelled grammar rest.
Proof.
  intros Hn. destruct (two_digits n Hn) as [Hhi Hlo].
  destruct (digitChar_digit _ Hhi) as (Hd1 & _).
  destruct (digitChar_digit _ Hlo) as (Hd2 & _).
  unfold two. cbn [append spelled]. rewrite Hd1, Hd2. reflexivity.
Qed.

Lemma skip_dash rest : GoTime.skip (String "-" rest) "-" = Some rest.
Proof. reflexivity. Qed.

Lemma skip_colon rest : GoTime.skip (String ":" rest) ":" = Some rest.
Proof. reflexivity. Qed.

Lemma spelled_byte b rest grammar :
  spelled (Byte b :: grammar) (String b rest) = spelled grammar rest.
Proof. cbn [spelled]. rewrite Ascii.eqb_refl. reflexivity. Qed.

Lemma spelled_end tail : spelled [] tail = String.eqb tail "".
Proof. destruct tail; reflexivity. Qed.

Lemma append_nil_r (s : string) : s ++ "" = s.
Proof. induction s as [| c s IH]; simpl; [| rewrite IH]; reflexivity. Qed.

(** On a timestamp of the grammar and what follows it, the parser gives
    the instant the fields name, if they name one and what follows is a
    fractional second or nothing. *)
Lemma Parse_stamp year month day hour min second tail :
  0 <= year < 10000 -> 0 <= month < 100 -> 0 <= day < 100 ->
  0 <= hour < 100 -> 0 <= min < 100 -> 0 <= second < 100 ->
  spelled timestampGrammar (stamp year month day hour min second ++ tail)
  = String.eqb tail ""
  /\ GoTime.Parse (stamp year month day hour min second ++ tail)
     = if realTime year month day hour min second
       then let (nanoseconds, value) := GoTime.fraction tail in
            if String.eqb value ""
            then Some (mkTime (sec (Sample.Date year month day hour min second))
                              nanoseconds)
            else None
       else None.
Proof.
  intros Hy Hmo Hd Hh Hmi Hs. unfold stamp, four. rewrite !append_assoc. split.
  - unfold timestampGrammar.
    assert (Hhi : 0 <= year / 100 < 100).
    { split; [apply Z.div_pos; lia | apply Z.div_lt_upper_bound; lia]. }
    assert (Hlo : 0 <= year mod 100 < 100) by (apply Z.mod_pos_bound; lia).
    rewrite (spelled_two _ _ _ Hhi), (spelled_two _ _ _ Hlo).
    cbn [append]. rewrite spelled_byte, (spelled_two _ _ _ Hmo).
    cbn [append]. rewrite spelled_byte, (spelled_two _ _ _ Hd).
    cbn [append]. rewrite spelled_byte, (spelled_two _ _ _ Hh).
    cbn [append]. rewrite spelled_byte, (spelled_two _ _ _ Hmi).
    cbn [append]. rewrite spelled_byte, (spelled_two _ _ _ Hs).
    apply spelled_end.
  - unfold GoTime.Parse. rewrite <- !append_assoc. fold (four year).
    rewrite !append_assoc.
    rewrite (longYear_four year _ Hy). cbn [Sample.obind append].
    rewrite skip_dash. cbn [Sample.obind]. rewrite (getnum_two month _ true Hmo).
    cbn [Sample.obind]. unfold realTime.
    destruct (Z.leb_spec month 0) as [Hm0 | Hm0]; cbn [orb].
    { destruct (Z.leb_spec 1 month); [lia | reflexivity]. }
    destruct (Z.leb_spec 1 month); [| lia].
    destruct (Z.ltb_spec 12 month) as [Hm12 | Hm12].
    { destruct (Z.leb_spec month 12); [lia | reflexivity]. }
    destruct (Z.leb_spec month 12); [| lia]. cbn [andb].
    cbn [Sample.obind append].
    rewrite skip_dash. cbn [Sample.obind]. rewrite (getnum_two day _ true Hd).
    cbn [Sample.obind append].
    rewrite (skip_space_two hour _ Hh). cbn [Sample.obind].
    rewrite (getnum_two hour _ false Hh). cbn [Sample.obind].
    destruct (Z.leb_spec 24 hour) as [Hh24 | Hh24].
    { destruct (Z.ltb_spec hour 24); [lia |]. rewrite !andb_false_r. reflexivity. }
    destruct (Z.ltb_spec hour 24); [| lia].
    cbn [Sample.obind append].
    rewrite skip_colon. cbn [Sample.obind]. rewrite (getnum_two min _ true Hmi).
    cbn [Sample.obind].
    destruct (Z.leb_spec 60 min) as [Hm60 | Hm60].
    { destruct (Z.ltb_spec min 60); [lia |]. rewrite !andb_false_r. reflexivity. }
    destruct (Z.ltb_spec min 60); [| lia].
    cbn [Sample.obind append]. rewrite skip_colon. cbn [Sample.obind].
    rewrite (getnum_two second _ true Hs). cbn [Sample.obind].
    destruct (Z.leb_spec 60 second) as [Hs60 | Hs60].
    { destruct (Z.ltb_spec second 60); [lia |]. rewrite !andb_false_r. reflexivity. }
    destruct (Z.ltb_spec second 60); [| lia].
    destruct (GoTime.fraction tail) as [nanoseconds value].
    destruct (Z.ltb_spec day 1) as [Hd1 | Hd1]; cbn [orb].
    { destruct (Z.leb_spec 1 day); [lia |]. destruct (String.eqb value ""); reflexivity. }
    destruct (Z.leb_spec 1 day); [| lia].
    destruct (Z.ltb_spec (Sample.daysIn month year) day) as [Hdm | Hdm].
    { destruct (Z.leb_spec day (Sample.daysIn month year)); [lia |].
      destruct (String.eqb value ""); reflexivity. }
    destruct (Z.leb_spec day (Sample.daysIn month year)); [| lia].
    destruct (String.eqb value ""); reflexivity.
Qed.

(** *** The strings of the grammar *)

Lemma isDigit_inv c :
  Sample.isDigit c = true -> exists n, 0 <= n < 10 /\ c = digitChar n.
Proof.
  intros Hc. exists (Sample.digit c).
  destruct c as [[] [] [] [] [] [] [] []]; try discriminate Hc;
    (split; [cbv; split; [discriminate | reflexivity] | reflexivity]).
Qed.

Lemma spelled_Digit_inv grammar s :
  spelled (Digit :: grammar) s = true ->
  exists n rest, 0 <= n < 10 /\ s = String (digitChar n) rest
                 /\ spelled grammar rest = true.
Proof.
  destruct s as [| c rest]; cbn [spelled]; [discriminate |].
  intros H. apply andb_true_iff in H as [Hc Hrest].
  destruct (isDigit_inv c Hc) as (n & Hn & ->). eauto.
Qed.

Lemma spelled_Byte_inv b grammar s :
  spelled (Byte b :: grammar) s = true ->
  exists rest, s = String b rest /\ spelled grammar rest = true.
Proof.
  destruct s as [| c rest]; cbn [spelled]; [discriminate |].
  intros H. apply andb_true_iff in H as [Hc Hrest].
  apply Ascii.eqb_eq in Hc. subst c. eauto.
Qed.

Lemma two_of_digits a b :
  0 <= a < 10 -> 0 <= b < 10 ->
  String (digitChar a) (String (digitChar b) "") = two (10 * a + b).
Proof.
  intros Ha Hb. unfold two.
  replace ((10 * a + b) / 10) with a by (apply Z.div_unique with b; lia).
  replace ((10 * a + b) mod 10) with b by (apply Z.mod_unique with a; lia).
  reflexivity.
Qed.

Lemma four_of_digits a b c d :
  0 <= a < 10 -> 0 <= b < 10 -> 0 <= c < 10 -> 0 <= d < 10 ->
  String (digitChar a) (String (digitChar b) (String (digitChar c)
    (String (digitChar d) "")))
  = four (100 * (10 * a + b) + (10 * c + d)).
Proof.
  intros Ha Hb Hc Hd. unfold four.
  replace ((100 * (10 * a + b) + (10 * c + d)) / 100) with (10 * a + b)
    by (apply Z.div_unique with (10 * c + d); lia).
  replace ((100 * (10 * a + b) + (10 * c + d)) mod 100) with (10 * c + d)
    by (apply Z.mod_unique with (10 * a + b); lia).
  rewrite <- !two_of_digits by assumption. reflexivity.
Qed.

(** A string of the grammar is the timestamp of its fields. *)
Lemma spelled_stamp value :
  spelled timestampGrammar value = true ->
  exists year month day hour min second,
    (0 <= year < 10000 /\ 0 <= month < 100 /\ 0 <= day < 100
     /\ 0 <= hour < 100 /\ 0 <= min < 100 /\ 0 <= second < 100)
    /\ value = stamp year month day hour min second.
Proof.
  unfold timestampGrammar. intros H.
  apply spelled_Digit_inv in H as (y1 & r & Hy1 & -> & H).
  apply spelled_Digit_inv in H as (y2 & r' & Hy2 & -> & H).
  apply spelled_Digit_inv in H as (y3 & r & Hy3 & -> & H).
  apply spelled_Digit_inv in H as (y4 & r' & Hy4 & -> & H).
  apply spelled_Byte_inv in H as (r & -> & H).
  apply spelled_Digit_inv in H as (m1 & r' & Hm1 & -> & H).
  apply spelled_Digit_inv in H as (m2 & r & Hm2 & -> & H).
  apply spelled_Byte_inv in H as (r' & -> & H).
  apply spelled_Digit_inv in H as (d1 & r & Hd1 & -> & H).
  apply spelled_Digit_inv in H as (d2 & r' & Hd2 & -> & H).
  apply spelled_Byte_inv in H as (r & -> & H).
  apply spelled_Digit_inv in H as (h1 & r' & Hh1 & -> & H).
  apply spelled_Digit_inv in H as (h2 & r & Hh2 & -> & H).
  apply spelled_Byte_inv in H as (r' & -> & H).
  apply spelled_Digit_inv in H as (i1 & r & Hi1 & -> & H).
  apply spelled_Digit_inv in H as (i2 & r' & Hi2 & -> & H).
  apply spelled_Byte_inv in H as (r & -> & H).
  apply spelled_Digit_inv in H as (s1 & r' & Hs1 & -> & H).
  apply spelled_Digit_inv in H as (s2 & r & Hs2 & -> & H).
  rewrite spelled_end in H. apply String.eqb_eq in H. subst r.
  exists (100 * (10 * y1 + y2) + (10 * y3 + y4)), (10 * m1 + m2), (10 * d1 + d2),
         (10 * h1 + h2), (10 * i1 + i2), (10 * s1 + s2).
  split; [lia |]. unfold stamp.
  rewrite <- (four_of_digits y1 y2 y3 y4), <- !two_of_digits by assumption.
  reflexivity.
Qed.

Lemma fraction_tenths tenths :
  0 <= tenths < 10 ->
  GoTime.fraction ("." ++ String (digitChar tenths) "") = (tenths * 100000000, "").
Proof.
  intros Ht. destruct (digitChar_digit tenths Ht) as (Hd & Hv & _).
  cbn [append GoTime.fraction GoTime.leadingDigits]. rewrite Hd.
  change (GoTime.commaOrPeriod ".") with true. cbn [andb].
  unfold GoTime.parseNanoseconds.
  cbn [substring String.length GoTime.atoi]. rewrite Hv. reflexivity.
Qed.




(** ** The claims about resource quantities *)

(** C5. Validation passes only if the four quantities match the pattern; a
    quantity that does not match makes it fail, and when the checks before
    the quantities pass the error is the format error of the first quantity
    that does not match. The pattern refuses 1BB and accepts 500m. *)
Theorem quantity_format_checked L f :
  let conform s := Regexp.matches k8sQuantitiesReg s in
  (forall args res, validate L f = Ok (args, res) ->
     conform (flag_driver_core_request f) = true
     /\ conform (flag_driver_memory f) = true
     /\ conform (flag_executor_core_request f) = true
     /\ conform (flag_executor_memory f) = true)
  /\ (forall s, In s [flag_driver_core_request f; flag_driver_memory f;
                     flag_executor_core_request f; flag_executor_memory f] ->
     conform s = false -> is_err (validate L f) = true)
  /\ (firstFailure (earlierChecks L f) = None ->
      forall e, firstFailure (quantityChecks f) = Some e ->
        validate L f = Err e
        /\ In e [errDriverCoreRequest; errDriverMemory;
                 errExecutorCoreRequest; errExecutorMemory])
  /\ conform "1BB" = false
  /\ conform "500m" = true.
Proof.
  intros conform.
  assert (Hsplit : checks L f = (earlierChecks L f ++ quantityChecks f)%list) by reflexivity.
  assert (Hpass : firstFailure (checks L f) = None ->
     conform (flag_driver_core_request f) = true
     /\ conform (flag_driver_memory f) = true
     /\ conform (flag_executor_core_request f) = true
     /\ conform (flag_executor_memory f) = true).
  { rewrite Hsplit, firstFailure_app.
    destruct (firstFailure (earlierChecks L f)); [discriminate |].
    unfold quantityChecks, checkQuantity, conform. cbn [firstFailure].
    destruct (Regexp.matches _ (flag_driver_core_request f)); [| discriminate].
    destruct (Regexp.matches _ (flag_driver_memory f)); [| discriminate].
    destruct (Regexp.matches _ (flag_executor_core_request f)); [| discriminate].
    destruct (Regexp.matches _ (flag_executor_memory f)); [| discriminate].
    auto. }
  split; [| split; [| split; [| split]]].
  - intros args res Hv. apply validate_Ok_checks in Hv as (Hff & _). auto.
  - intros s Hin Hs. apply validate_Err_iff. intros Hff.
    destruct (Hpass Hff) as (H1 & H2 & H3 & H4).
    simpl in Hin. destruct Hin as [<- | [<- | [<- | [<- | []]]]]; congruence.
  - intros Hb e He. split.
    + rewrite validate_checks, Hsplit, firstFailure_app, Hb, He. reflexivity.
    + apply firstFailure_In in He. unfold quantityChecks, checkQuantity in He.
      simpl in He.
      repeat match type of He with
             | _ \/ _ => destruct He as [He | He]
             | context [if ?b then _ else _] => destruct b
             end;
        try discriminate; try contradiction; injection He as <-; simpl; auto.
  - reflexivity.
  - reflexivity.
Qed.

Lemma quantity_format_checked_witness :
  validate Sample.lib (Sample.request "initial" 0 "k8s-np" "" "" "1BB")
    = Err (Errorf "driver-core-request should conform to the Kubernetes convention")
  /\ conforms "1BB" errDriverCoreRequest = Err errDriverCoreRequest
  /\ conforms "500m" errDriverCoreRequest = Ok tt.
Proof.
  destruct (quantity_format_checked Sample.lib
              (Sample.request "initial" 0 "k8s-np" "" "" "1BB"))
    as (_ & _ & Hfirst & Hno & Hyes).
  split; [| split].
  - apply (Hfirst eq_refl). reflexivity.
  - unfold conforms, MatchString. rewrite Hno. reflexivity.
  - unfold conforms, MatchString. rewrite Hyes. reflexivity.
Defined.

(** A sign or none, digits and dots, unit letters, a sign or none, digits:
    such a string is in the language of the pattern. *)
Lemma shaped_quantity_Lang (sign body units expSign exponent : string) :
  In sign [""; "+"; "-"] ->
  body <> "" ->
  Regexp.all_in "0123456789." body = true ->
  Regexp.all_in "eEinumkKMGTP" units = true ->
  In expSign [""; "-"; "+"] ->
  Regexp.all_in "0123456789" exponent = true ->
  Regexp.Lang k8sQuantitiesReg (sign ++ body ++ units ++ expSign ++ exponent).
Proof.
  intros Hsign Hbody Hall Hunits HexpSign Hexp. unfold k8sQuantitiesReg.
  rewrite <- append_assoc.
  repeat apply Regexp.LCat.
  - simpl in Hsign. destruct Hsign as [<- | [<- | [<- | []]]].
    + apply RegexpFacts.Lang_Opt_empty.
    + apply RegexpFacts.Lang_Opt_one. reflexivity.
    + apply RegexpFacts.Lang_Opt_one. reflexivity.
  - apply RegexpFacts.Lang_Plus_class; assumption.
  - apply RegexpFacts.Lang_Star_class, Hunits.
  - simpl in HexpSign. destruct HexpSign as [<- | [<- | [<- | []]]].
    + apply RegexpFacts.Lang_Opt_empty.
    + apply RegexpFacts.Lang_Opt_one. reflexivity.
    + apply RegexpFacts.Lang_Opt_one. reflexivity.
  - apply RegexpFacts.Lang_Star_class, Hexp.
Qed.

(** C10. The pattern asks for no digit: a sign or none, then one or more
    characters that are digits or dots, then any unit letters, a sign or
    none, and any digits, match it. A quantity made of dots alone passes
    the check of the command. *)
Theorem quantity_without_digit_accepted (sign body units expSign exponent : string) :
  In sign [""; "+"; "-"] ->
  body <> "" ->
  Regexp.all_in "0123456789." body = true ->
  Regexp.all_in "eEinumkKMGTP" units = true ->
  In expSign [""; "-"; "+"] ->
  Regexp.all_in "0123456789" exponent = true ->
  let s := sign ++ body ++ units ++ expSign ++ exponent in
  Regexp.matches k8sQuantitiesReg s = true
  /\ (forall e, conforms s e = Ok tt)
  /\ (forall e, checkQuantity s e = None).
Proof.
  intros Hsign Hbody Hall Hunits HexpSign Hexp s.
  assert (Hm : Regexp.matches k8sQuantitiesReg s = true)
    by (apply RegexpFacts.matches_Lang, shaped_quantity_Lang; assumption).
  split; [exact Hm | split]; intros e.
  - unfold conforms, MatchString. rewrite Hm. reflexivity.
  - unfold checkQuantity. rewrite Hm. reflexivity.
Qed.

Lemma quantity_without_digit_accepted_witness :
  Regexp.matches k8sQuantitiesReg "." = true
  /\ Regexp.matches k8sQuantitiesReg "..." = true
  /\ conforms "-..Ki" errDriverMemory = Ok tt.
Proof.
  split; [| split].
  - apply (quantity_without_digit_accepted "" "." "" "" "");
      simpl; auto; discriminate.
  - apply (quantity_without_digit_accepted "" "..." "" "" "");
      simpl; auto; discriminate.
  - apply (quantity_without_digit_accepted "-" ".." "Ki" "" "");
      simpl; auto; discriminate.
Defined.

(** ** The claims about the result fetch *)

Lemma fetchResult_run L C f id st :
  let endpoint := flag_clickhouse_endpoint f in
  let query := EvGetResult endpoint (flag_use_cluster_ip f) (flag_file f) id in
  fetchResult L C f id st =
    match (if String.eqb endpoint "" then Ok tt else url_ParseRequestURI L endpoint) with
    | Err err => (Err (errDecodeEndpoint endpoint err), st)
    | Ok _ =>
        match CheckClickHousePod C with
        | Err e => (Err e, andThen st [EvCheckClickHousePod])
        | Ok _ =>
            match getPolicyRecommendationResult C endpoint (flag_use_cluster_ip f)
                                                (flag_file f) id with
            | Err e => (Err e, andThen st [EvCheckClickHousePod; query])
            | Ok recoResult =>
                (Ok tt, andThen st ([EvCheckClickHousePod; query] ++
                                    (if String.eqb recoResult "" then []
                                     else [EvPrint recoResult])))
            end
        end
    end.
Proof.
  intros endpoint query. unfold fetchResult. fold endpoint.
  unfold bind, call, bind, emit, ret, fail, andThen.
  destruct (String.eqb endpoint ""); cbn [negb];
    [| destruct (url_ParseRequestURI L endpoint); [| reflexivity]];
    cbn [drawn queries slept trace];
    (destruct (CheckClickHousePod C); [| reflexivity]);
    (destruct (getPolicyRecommendationResult C endpoint _ _ id) as [r |];
     cbn [drawn queries slept trace]; rewrite <- ?app_assoc; [| reflexivity]);
    destruct (String.eqb r ""); cbn [negb drawn queries slept trace];
    rewrite <- ?app_assoc; reflexivity.
Qed.

Lemma RunE_waits L C f st0 id st1 st2 :
  submitJob L C f st0 = (Ok id, st1) -> flag_wait f = true ->
  pollStatus C id st1 = (Ok tt, st2) ->
  RunE L C f st0 = fetchResult L C f id st2.
Proof.
  intros Hs Hw Hp. unfold RunE. unfold bind at 1. rewrite Hs, Hw.
  unfold bind. rewrite Hp. reflexivity.
Qed.

(** C7. In the fetch, a non-empty endpoint that does not parse as a URL
    ends the step with the endpoint error before anything is asked of the
    cluster. Otherwise the ClickHouse Pod is checked first: if the check
    fails its error is returned as it is and no result query is made, and
    if it passes the query follows the check. An empty endpoint is never
    handed to the URL parser, whatever the parser would say of it. *)
Theorem fetch_preconditions L C f id st :
  let endpoint := flag_clickhouse_endpoint f in
  let query := EvGetResult endpoint (flag_use_cluster_ip f) (flag_file f) id in
  (forall err, endpoint <> "" -> url_ParseRequestURI L endpoint = Err err ->
     fetchResult L C f id st = (Err (errDecodeEndpoint endpoint err), st))
  /\ (forall e, endpoint = "" \/ url_ParseRequestURI L endpoint = Ok tt ->
     CheckClickHousePod C = Err e ->
     fetchResult L C f id st = (Err e, andThen st [EvCheckClickHousePod]))
  /\ (endpoint = "" \/ url_ParseRequestURI L endpoint = Ok tt ->
     CheckClickHousePod C = Ok tt ->
     exists rest,
       trace (snd (fetchResult L C f id st))
       = (trace st ++ EvCheckClickHousePod :: query :: rest)%list)
  /\ (endpoint = "" ->
     forall L', fetchResult L' C f id st = fetchResult L C f id st).
Proof.
  intros endpoint query.
  pose proof (fetchResult_run L C f id st) as Hrun. cbn zeta in Hrun.
  fold endpoint in Hrun. fold query in Hrun.
  assert (Hurl : endpoint = "" \/ url_ParseRequestURI L endpoint = Ok tt ->
            (if String.eqb endpoint "" then Ok tt else url_ParseRequestURI L endpoint)
            = Ok tt).
  { intros [-> | Hp]; [reflexivity |]. rewrite Hp. destruct (String.eqb endpoint ""); reflexivity. }
  split; [| split; [| split]].
  - intros err Hne Hp. apply String.eqb_neq in Hne. rewrite Hrun, Hne, Hp. reflexivity.
  - intros e Hok Hc. rewrite Hrun, (Hurl Hok), Hc. reflexivity.
  - intros Hok Hc. rewrite Hrun, (Hurl Hok), Hc.
    destruct (getPolicyRecommendationResult C endpoint _ _ id) as [r |]; cbn.
    + eexists. reflexivity.
    + exists []. reflexivity.
  - intros He L'. rewrite Hrun.
    pose proof (fetchResult_run L' C f id st) as Hrun'. cbn zeta in Hrun'.
    fold endpoint in Hrun'. fold query in Hrun'. rewrite Hrun'.
    rewrite He. reflexivity.
Qed.

Lemma fetch_preconditions_witness :
  let done := [Ok "COMPLETED"] in
  let id := Sample.newUUID 0 in
  fst (RunE Sample.lib (Sample.cluster done (Ok "") (Ok "policy"))
            (Sample.waiting "localhost 8123") initState)
    = Err (errDecodeEndpoint "localhost 8123"
             (Foreign ("parse " ++ dquote ++ "localhost 8123" ++ dquote
                       ++ ": invalid URI for request")))
  /\ fst (RunE Sample.lib (Sample.clusterWithoutClickHouse done (Ok ""))
              (Sample.waiting "") initState)
    = Err (Foreign "can't find the ClickHouse Pod")
  /\ trace (snd (RunE Sample.lib (Sample.clusterWithoutClickHouse done (Ok ""))
                      (Sample.waiting "") initState))
    = (trace (snd (submitJob Sample.lib (Sample.clusterWithoutClickHouse done (Ok ""))
                             (Sample.waiting "") initState))
       ++ [EvGetStatus id; EvCheckClickHousePod])%list.
Proof.
  intros done id.
  split; [| split].
  - set (C := Sample.cluster done (Ok "") (Ok "policy")).
    set (f := Sample.waiting "localhost 8123").
    rewrite (RunE_waits Sample.lib C f initState id
               (snd (submitJob Sample.lib C f initState))
               (snd (pollStatus C id (snd (submitJob Sample.lib C f initState))))
               eq_refl eq_refl eq_refl).
    destruct (fetch_preconditions Sample.lib C f id
                (snd (pollStatus C id (snd (submitJob Sample.lib C f initState)))))
      as (Hbad & _).
    rewrite (Hbad _ ltac:(discriminate) eq_refl). reflexivity.
  - set (C := Sample.clusterWithoutClickHouse done (Ok "")).
    set (f := Sample.waiting "").
    rewrite (RunE_waits Sample.lib C f initState id
               (snd (submitJob Sample.lib C f initState))
               (snd (pollStatus C id (snd (submitJob Sample.lib C f initState))))
               eq_refl eq_refl eq_refl).
    destruct (fetch_preconditions Sample.lib C f id
                (snd (pollStatus C id (snd (submitJob Sample.lib C f initState)))))
      as (_ & Hpod & _).
    rewrite (Hpod _ (or_introl eq_refl) eq_refl). reflexivity.
  - set (C := Sample.clusterWithoutClickHouse done (Ok "")).
    set (f := Sample.waiting "").
    rewrite (RunE_waits Sample.lib C f initState id
               (snd (submitJob Sample.lib C f initState))
               (snd (pollStatus C id (snd (submitJob Sample.lib C f initState))))
               eq_refl eq_refl eq_refl).
    destruct (fetch_preconditions Sample.lib C f id
                (snd (pollStatus C id (snd (submitJob Sample.lib C f initState)))))
      as (_ & Hpod & _).
    rewrite (Hpod _ (or_introl eq_refl) eq_refl). reflexivity.
Defined.

(** C8. Once the preconditions hold and the retrieval returns an artifact,
    the fetch succeeds whatever the artifact: an empty one is not printed,
    a non-empty one is printed as it is, and nothing else is; the
    invocation that waited for the job returns no error. *)
Theorem empty_artifact_not_an_error L C f id st recoResult :
  let endpoint := flag_clickhouse_endpoint f in
  let query := EvGetResult endpoint (flag_use_cluster_ip f) (flag_file f) id in
  endpoint = "" \/ url_ParseRequestURI L endpoint = Ok tt ->
  CheckClickHousePod C = Ok tt ->
  getPolicyRecommendationResult C endpoint (flag_use_cluster_ip f) (flag_file f) id
    = Ok recoResult ->
  let st' := snd (fetchResult L C f id st) in
  fst (fetchResult L C f id st) = Ok tt
  /\ (recoResult = "" ->
      st' = andThen st [EvCheckClickHousePod; query]
      /\ printed (trace st') = printed (trace st))
  /\ (recoResult <> "" ->
      st' = andThen st [EvCheckClickHousePod; query; EvPrint recoResult]
      /\ printed (trace st') = (printed (trace st) ++ [recoResult])%list)
  /\ (forall st0 st1,
        submitJob L C f st0 = (Ok id, st1) -> flag_wait f = true ->
        pollStatus C id st1 = (Ok tt, st) ->
        RunE L C f st0 = (Ok tt, st')).
Proof.
  intros endpoint query Hurl Hpod Hres st'.
  pose proof (fetchResult_run L C f id st) as Hrun. cbn zeta in Hrun.
  fold endpoint in Hrun. fold query in Hrun.
  assert (Hu : (if String.eqb endpoint "" then Ok tt else url_ParseRequestURI L endpoint)
               = Ok tt).
  { destruct Hurl as [-> | Hp]; [reflexivity |].
    rewrite Hp. destruct (String.eqb endpoint ""); reflexivity. }
  rewrite Hu, Hpod, Hres in Hrun.
  assert (Hfst : fst (fetchResult L C f id st) = Ok tt) by (rewrite Hrun; reflexivity).
  split; [exact Hfst | split; [| split]].
  - intros ->. subst st'. rewrite Hrun. cbn. split; [reflexivity |].
    rewrite printed_app. cbn. apply app_nil_r.
  - intros Hne. apply String.eqb_neq in Hne. subst st'. rewrite Hrun, Hne. cbn.
    split; [reflexivity |]. rewrite printed_app. reflexivity.
  - intros st0 st1 Hs Hw Hp. rewrite (RunE_waits L C f st0 id st1 st Hs Hw Hp).
    subst st'. rewrite <- Hfst. apply surjective_pairing.
Qed.

Lemma empty_artifact_not_an_error_witness :
  let done := [Ok "COMPLETED"] in
  let f := Sample.waiting "" in
  let run result := RunE Sample.lib (Sample.cluster done (Ok "") (Ok result)) f initState in
  (fst (run "") = Ok tt /\ printed (trace (snd (run ""))) = [])
  /\ (fst (run "kind: NetworkPolicy") = Ok tt
      /\ printed (trace (snd (run "kind: NetworkPolicy"))) = ["kind: NetworkPolicy"]).
Proof.
  intros done f run.
  assert (Huse : forall result,
     run result = (Ok tt,
       snd (fetchResult Sample.lib (Sample.cluster done (Ok "") (Ok result)) f
              (Sample.newUUID 0)
              (snd (pollStatus (Sample.cluster done (Ok "") (Ok result)) (Sample.newUUID 0)
                      (snd (submitJob Sample.lib (Sample.cluster done (Ok "") (Ok result))
                              f initState))))))).
  { intros result.
    destruct (empty_artifact_not_an_error Sample.lib
                (Sample.cluster done (Ok "") (Ok result)) f (Sample.newUUID 0)
                (snd (pollStatus (Sample.cluster done (Ok "") (Ok result)) (Sample.newUUID 0)
                        (snd (submitJob Sample.lib (Sample.cluster done (Ok "") (Ok result))
                                f initState))))
                result (or_introl eq_refl) eq_refl eq_refl)
      as (_ & _ & _ & Hrun).
    apply (Hrun initState _ eq_refl eq_refl eq_refl). }
  split; rewrite Huse; split; reflexivity.
Defined.

(** ** The claim about the identifier *)

Lemma RunE_builds L C f args res st :
  validate L f = Ok (args, res) ->
  ResolveKubeConfig C = Ok tt -> CreateK8sClient C = Ok tt ->
  PolicyRecoPreCheck C = Ok tt ->
  let id := uuid_New C (drawn st) in
  let app := recommendationApplication (args ++ ["--id"; id])%list res id in
  let st' := snd (RunE L C f st) in
  drawn st' = S (drawn st)
  /\ posted (trace st') = (posted (trace st) ++ [app])%list.
Proof.
  intros Hv Hr Hc Hp id app st'.
  assert (Hsub : keeps (submitted st app) st' ->
            drawn st' = S (drawn st)
            /\ posted (trace st') = (posted (trace st) ++ [app])%list).
  { intros [Hd Ht]. rewrite Hd, Ht. unfold submitted. cbn [drawn trace].
    rewrite posted_app. auto. }
  apply Hsub. subst st'. unfold RunE. unfold bind at 1.
  rewrite (submitJob_valid L C f args res st Hv Hr Hc Hp). fold id. fold app.
  destruct (Post C app) as [[] | e]; [| apply keeps_refl].
  destruct (flag_wait f).
  - unfold bind. destruct (pollStatus C id (submitted st app)) as [[[] | e] st1] eqn:Hpoll.
    + eapply keeps_trans; [| apply fetchResult_keeps].
      replace st1 with (snd (pollStatus C id (submitted st app))) by (rewrite Hpoll; reflexivity).
      rewrite pollStatus_waitFor. apply waitFor_keeps.
    + replace st1 with (snd (pollStatus C id (submitted st app))) by (rewrite Hpoll; reflexivity).
      rewrite pollStatus_waitFor. apply waitFor_keeps.
  - split; cbn; [reflexivity |]. rewrite posted_app. cbn. apply app_nil_r.
Qed.

Lemma runs_build L C f args res :
  validate L f = Ok (args, res) ->
  ResolveKubeConfig C = Ok tt -> CreateK8sClient C = Ok tt ->
  PolicyRecoPreCheck C = Ok tt ->
  forall n st,
    posted (trace (runs L C f n st))
    = (posted (trace st) ++ jobSpecs args res (map (uuid_New C) (seq (drawn st) n)))%list.
Proof.
  intros Hv Hr Hc Hp. induction n as [| n IH]; intros st; cbn [runs seq map jobSpecs].
  - symmetry. apply app_nil_r.
  - destruct (RunE_builds L C f args res st Hv Hr Hc Hp) as [Hd Ht].
    rewrite IH, Hd, Ht, <- app_assoc. reflexivity.
Qed.

Lemma jobName_inj id1 id2 : "policy-reco-" ++ id1 = "policy-reco-" ++ id2 -> id1 = id2.
Proof. simpl. intros H. injection H as H. exact H. Qed.

Lemma runs_drawn L C f args res :
  validate L f = Ok (args, res) ->
  ResolveKubeConfig C = Ok tt -> CreateK8sClient C = Ok tt ->
  PolicyRecoPreCheck C = Ok tt ->
  forall n st, drawn (runs L C f n st) = (drawn st + n)%nat.
Proof.
  intros Hv Hr Hc Hp. induction n as [| n IH]; intros st; cbn [runs]; [lia |].
  destruct (RunE_builds L C f args res st Hv Hr Hc Hp) as [Hd _].
  rewrite IH, Hd. lia.
Qed.

Lemma NoDup_jobNames ids :
  NoDup (map (append "policy-reco-") ids) <-> NoDup ids.
Proof.
  split.
  - apply NoDup_map_inv.
  - apply Injective_map_NoDup. intros id1 id2. apply jobName_inj.
Qed.




(** ** Further properties *)

(** X1. Validation is the checks of [checks] made in that order: it fails
    with [e] exactly when [e] is the error of the first check that fails,
    and it passes exactly when no check fails, leaving [--type], [--limit]
    and [--option] with its code, then the times and the allow-list that
    are given, then the two toggles, and the resource arguments of the
    flags. *)
Theorem validation_in_order L f :
  (forall e, validate L f = Err e <-> firstFailure (checks L f) = Some e)
  /\ (forall args res,
       validate L f = Ok (args, res) <->
       firstFailure (checks L f) = None
       /\ args = encodedArgs f (codeOf f) /\ res = resourcesOf f).
Proof.
  split.
  - intros e. rewrite validate_checks.
    destruct (firstFailure (checks L f)); split; congruence.
  - intros args res. split; [apply validate_Ok_checks |].
    intros (Hff & -> & ->). rewrite validate_checks, Hff. reflexivity.
Qed.

(** X4. The strings the quantity pattern matches are exactly those made of
    a sign or none, one or more digits or dots, any unit letters among
    eEinumkKMGTP, a sign or none, and any digits, in that order. *)
Theorem quantity_grammar s :
  Regexp.matches k8sQuantitiesReg s = true <->
  exists sign body units expSign exponent,
    s = sign ++ body ++ units ++ expSign ++ exponent
    /\ In sign [""; "+"; "-"]
    /\ body <> ""
    /\ Regexp.all_in "0123456789." body = true
    /\ Regexp.all_in "eEinumkKMGTP" units = true
    /\ In expSign [""; "-"; "+"]
    /\ Regexp.all_in "0123456789" exponent = true.
Proof.
  rewrite RegexpFacts.matches_Lang. split.
  - unfold k8sQuantitiesReg. intros H.
    apply RegexpFacts.Lang_Cat_inv in H as (s12 & s345 & -> & H12 & H345).
    apply RegexpFacts.Lang_Cat_inv in H12 as (sign & body & -> & Hsign & Hbody).
    apply RegexpFacts.Lang_Cat_inv in H345 as (units & s45 & -> & Hunits & H45).
    apply RegexpFacts.Lang_Cat_inv in H45 as (expSign & exponent & -> & HexpSign & Hexp).
    apply RegexpFacts.Lang_Plus_class_inv in Hbody as (Hne & Hbody).
    apply RegexpFacts.Lang_Star_class_inv in Hunits, Hexp.
    exists sign, body, units, expSign, exponent.
    rewrite append_assoc.
    repeat split; try assumption.
    + apply RegexpFacts.Lang_Opt_class_inv in Hsign as [-> | (c & -> & Hc)]; simpl; [auto |].
      simpl in Hc. rewrite orb_false_r in Hc. apply orb_true_iff in Hc.
      destruct Hc as [Hc | Hc]; apply Ascii.eqb_eq in Hc; subst c; auto.
    + apply RegexpFacts.Lang_Opt_class_inv in HexpSign as [-> | (c & -> & Hc)]; simpl; [auto |].
      simpl in Hc. rewrite orb_false_r in Hc. apply orb_true_iff in Hc.
      destruct Hc as [Hc | Hc]; apply Ascii.eqb_eq in Hc; subst c; auto.
  - intros (sign & body & units & expSign & exponent & -> & H).
    destruct H as (H1 & H2 & H3 & H4 & H5 & H6).
    apply shaped_quantity_Lang; assumption.
Qed.

(** X2. Without [--wait], a submission that succeeded is followed by the
    confirmation naming the identifier and by nothing else: no status
    query, no fetch. *)
Theorem created_without_wait L C f st id st1 :
  submitJob L C f st = (Ok id, st1) ->
  flag_wait f = false ->
  RunE L C f st = (Ok tt, andThen st1 [EvPrint (createdMessage id)])
  /\ queries (snd (RunE L C f st)) = queries st.
Proof.
  intros Hs Hw.
  assert (Hrun : RunE L C f st = (Ok tt, andThen st1 [EvPrint (createdMessage id)])).
  { unfold RunE. unfold bind at 1. rewrite Hs, Hw. reflexivity. }
  split; [exact Hrun |]. rewrite Hrun.
  apply submitJob_inv in Hs as (args & res & _ & _ & ->). reflexivity.
Qed.

Lemma created_without_wait_witness :
  let run := RunE Sample.lib (Sample.cluster [] (Ok "RUNNING") (Ok "")) defaultFlags initState in
  fst run = Ok tt
  /\ printed (trace (snd run))
     = ["Successfully created policy recommendation job with ID "
        ++ "e998433e-accb-4888-9fc8-06563f071000" ++ nl]
  /\ queries (snd run) = 0%nat.
Proof.
  intros run.
  destruct (created_without_wait Sample.lib (Sample.cluster [] (Ok "RUNNING") (Ok ""))
              defaultFlags initState (Sample.newUUID 0)
              (snd (submitJob Sample.lib (Sample.cluster [] (Ok "RUNNING") (Ok ""))
                      defaultFlags initState))
              eq_refl eq_refl) as (Hrun & Hq).
  subst run. split; [| split].
  - rewrite Hrun. reflexivity.
  - rewrite Hrun. reflexivity.
  - exact Hq.
Defined.

Lemma waitFor_bound C id interval rest : (0 <= interval) -> (0 <= rest) ->
  forall ticks st,
    let st' := snd (waitFor ticks interval rest (pollCondition C id) st) in
    (queries st < queries st' <= queries st + S ticks)%nat
    /\ slept st <= slept st' <= slept st + Z.of_nat ticks * interval + rest.
Proof.
  intros Hi Hr. induction ticks as [| n IH]; intros st; cbn [waitFor]; rewrite round_run;
    cbn zeta; unfold ret, fail.
  - destruct (getPolicyRecommendationStatus C (queries st) id) as [state | e];
      [destruct (String.eqb state "COMPLETED"); [| destruct (isFailureState state)] |];
      cbn [snd afterQueries queries slept]; lia.
  - destruct (getPolicyRecommendationStatus C (queries st) id) as [state | e];
      [destruct (String.eqb state "COMPLETED"); [| destruct (isFailureState state)] |];
      try (cbn [snd afterQueries queries slept]; lia).
    specialize (IH (afterQueries st id 1 interval)). cbn zeta in IH.
    cbn [afterQueries queries slept] in IH. lia.
Qed.

(** X3. Whatever the cluster answers, the poll ends after at least one and
    at most [pollTicks + 1] status queries, and after waiting no longer
    than the timeout. *)
Theorem poll_is_bounded C id st :
  let st' := snd (pollStatus C id st) in
  (queries st < queries st' <= queries st + S pollTicks)%nat
  /\ slept st <= slept st' <= slept st + statusCheckPollTimeout.
Proof.
  intros st'. subst st'. rewrite pollStatus_waitFor.
  destruct (waitFor_bound C id statusCheckPollInterval 0 ltac:(vm_compute; discriminate)
              (Z.le_refl 0) pollTicks st) as [Hq Hs].
  split; [exact Hq |].
  replace statusCheckPollTimeout
    with (Z.of_nat pollTicks * statusCheckPollInterval) by reflexivity.
  lia.
Qed.

(** ** The command run on concrete flags *)

Example validate_scenario :
  validate Sample.lib
    (Sample.request "initial" 10000 "anp-deny-applied"
                    "2022-01-01 00:00:00" "2022-01-31 23:59:59" "500m")
  = Ok (["--type"; "initial"; "--limit"; "10000"; "--option"; "1";
         "--start_time"; "2022-01-01 00:00:00"; "--end_time"; "2022-01-31 23:59:59";
         "--rm_labels"; "true"; "--to_services"; "true"],
        mkSparkResourceArgs 1 "500m" "512M" "200m" "512M").
Proof. reflexivity. Qed.

Example validate_dots :
  is_err (validate Sample.lib (Sample.request "initial" 0 "k8s-np" "" "" "...")) = false.
Proof. reflexivity. Qed.

Example quantities_of_the_help_text :
  map (Regexp.matches k8sQuantitiesReg)
      ["200m"; "0.1"; "500m"; "1.5"; "5"; "512M"; "1G"; "8G"; "1BB"; ""; "m"; "1 G"]
  = [true; true; true; true; true; true; true; true; false; false; false; false].
Proof. reflexivity. Qed.

Example failure_states :
  map isFailureState
      ["FAILED"; "SUBMISSION_FAILED"; "FAILING"; "INVALIDATING";
       "COMPLETED"; "RUNNING"; "SUBMITTED"; "UNKNOWN"; ""; "failed"]
  = [true; true; true; true; false; false; false; false; false; false].
Proof. reflexivity. Qed.

Example run_until_timeout :
  let run := RunE Sample.lib (Sample.cluster [] (Ok "RUNNING") (Ok "policy"))
                  (Sample.waiting "") initState in
  fst run = Err ErrWaitTimeout
  /\ queries (snd run) = 721%nat
  /\ slept (snd run) = 60 * Minute
  /\ printed (trace (snd run)) = [].
Proof. vm_compute. auto. Qed.

(** ** The fake S3 client *)
Module FakeS3Facts.
Import FakeS3.

Lemma find_add (V : Type) (m : SMap.t V) (k k' : string) (v : V) :
  SMap.find k' (SMap.add k v m) = if String.eqb k k' then Some v else SMap.find k' m.
Proof.
  destruct (String.eqb_spec k k') as [-> | Hne].
  - apply SMapFacts.add_eq_o. reflexivity.
  - apply SMapFacts.add_neq_o. exact Hne.
Qed.

Lemma find_remove (V : Type) (m : SMap.t V) (k k' : string) :
  SMap.find k' (SMap.remove k m) = if String.eqb k k' then None else SMap.find k' m.
Proof.
  destruct (String.eqb_spec k k') as [-> | Hne].
  - apply SMapFacts.remove_eq_o. reflexivity.
  - apply SMapFacts.remove_neq_o. exact Hne.
Qed.

Lemma In_find (V : Type) (m : SMap.t V) (k : string) :
  SMap.In k m <-> SMap.find k m <> None.
Proof. apply SMapFacts.in_find_iff. Qed.

Lemma cardinal_add (V : Type) (m : SMap.t V) (k : string) (v : V) :
  SMap.cardinal (SMap.add k v m)
  = match SMap.find k m with
    | Some _ => SMap.cardinal m
    | None => S (SMap.cardinal m)
    end.
Proof.
  destruct (SMap.find k m) eqn:Hf.
  - apply SMapProps.cardinal_Add_In with (x := k) (e := v).
    + apply In_find. congruence.
    + intros y. reflexivity.
  - apply SMapProps.cardinal_2 with (x := k) (e := v).
    + intros Hin. apply In_find in Hin. congruence.
    + intros y. reflexivity.
Qed.

Lemma cardinal_remove (V : Type) (m : SMap.t V) (k : string) :
  SMap.cardinal m
  = match SMap.find k m with
    | Some _ => S (SMap.cardinal (SMap.remove k m))
    | None => SMap.cardinal (SMap.remove k m)
    end.
Proof.
  destruct (SMap.find k m) as [v |] eqn:Hf.
  - apply SMapProps.cardinal_2 with (x := k) (e := v).
    + intros Hin. apply In_find in Hin. rewrite find_remove, String.eqb_refl in Hin.
      congruence.
    + intros y. rewrite find_add, find_remove.
      destruct (String.eqb_spec k y) as [<- |]; [exact Hf | reflexivity].
  - apply SMapProps.cardinal_m. intros y. rewrite find_remove.
    destruct (String.eqb_spec k y) as [<- |]; [exact Hf | reflexivity].
Qed.


Lemma len_assign_found (buckets : SMap.t fakeBucket) name :
  SMap.cardinal (SMap.add name mkFakeBucket buckets)
  = match SMap.find name buckets with
    | Some _ => SMap.cardinal buckets
    | None => S (SMap.cardinal buckets)
    end.
Proof. apply cardinal_add. Qed.

Lemma head_answer name st :
  fst (head name st)
  = match GoMap.lookup (FakeBuckets st) name with
    | Some _ => Returned None
    | None => Returned (Some NotFound)
    end.
Proof.
  unfold head, HeadBucket. cbn [HeadBucketInput_Bucket].
  destruct (GoMap.lookup (FakeBuckets st) name); reflexivity.
Qed.

(** X5. On buckets that were initialised, [CreateBucket] never fails and
    the bucket is there afterwards: [HeadBucket] finds it, finds or misses
    every other bucket as before, and the number of buckets grows by one
    if the bucket is new and stays if it was there. The stored objects
    are not touched. *)
Theorem create_bucket_then_head buckets objects name :
  let st := mkStore (Some buckets) objects in
  let st' := snd (create name st) in
  fst (create name st) = Returned None
  /\ fst (head name st') = Returned None
  /\ (forall other, other <> name -> fst (head other st') = fst (head other st))
  /\ GoMap.len (FakeBuckets st')
     = match fst (head name st) with
       | Returned None => GoMap.len (FakeBuckets st)
       | _ => S (GoMap.len (FakeBuckets st))
       end
  /\ fakeNonEmptyBucket st' = objects.
Proof.
  intros st st'. subst st st'. rewrite !head_answer.
  unfold create, CreateBucket.
  cbn [GoMap.assign GoMap.lookup GoMap.len fst snd FakeBuckets fakeNonEmptyBucket
       CreateBucketInput_Bucket].
  split; [reflexivity |]. split; [| split; [| split; [| reflexivity]]].
  - rewrite find_add, String.eqb_refl. reflexivity.
  - intros other Hne. rewrite !head_answer. cbn [GoMap.lookup FakeBuckets].
    rewrite find_add.
    destruct (String.eqb_spec name other) as [-> |]; [congruence | reflexivity].
  - rewrite cardinal_add. destruct (SMap.find name buckets); reflexivity.
Qed.

(** X6. [CreateBucket] panics exactly when its parameters, the bucket
    name in them or the bucket map is nil, and then changes nothing; so it
    panics on every call made before [InitFakeBuckets]. [HeadBucket] and
    [DeleteBucket] panic exactly when the parameters or the name are nil:
    on a nil map they only report the bucket missing. *)
Theorem create_bucket_panics params st :
  (fst (CreateBucket params st) = Panicked <->
     params = None \/ params = Some {| CreateBucketInput_Bucket := None |}
     \/ FakeBuckets st = None)
  /\ (fst (CreateBucket params st) = Panicked -> snd (CreateBucket params st) = st)
  /\ (forall name, fst (create name unset) = Panicked
                   /\ fst (create name (InitFakeBuckets unset)) = Returned None)
  /\ (forall hparams,
        fst (HeadBucket hparams st) = Panicked <->
        hparams = None \/ hparams = Some {| HeadBucketInput_Bucket := None |})
  /\ (forall dparams,
        fst (DeleteBucket dparams st) = Panicked <->
        dparams = None \/ dparams = Some {| DeleteBucketInput_Bucket := None |})
  /\ (FakeBuckets st = None ->
      forall name, head name st = (Returned (Some NotFound), st)
                   /\ drop name st = (Returned (Some NotFound), st)).
Proof.
  split; [| split; [| split; [| split; [| split]]]].
  - destruct params as [[[name |]] |]; cbn; [| intuition congruence ..].
    destruct (FakeBuckets st); cbn; intuition congruence.
  - destruct params as [[[name |]] |]; cbn; try reflexivity.
    destruct (FakeBuckets st); cbn; [discriminate | reflexivity].
  - intros name. split; reflexivity.
  - intros [[[name |]] |]; cbn; [| intuition congruence ..].
    destruct (GoMap.lookup (FakeBuckets st) name); cbn; intuition congruence.
  - intros [[[name |]] |]; cbn; [| intuition congruence ..].
    destruct (GoMap.lookup (FakeBuckets st) name); cbn; intuition congruence.
  - intros Hnil name. unfold head, drop, HeadBucket, DeleteBucket. cbn.
    rewrite Hnil. split; reflexivity.
Qed.

(** X7. [DeleteBucket] removes the bucket it is given and no other: if
    [HeadBucket] finds the bucket, the call returns no error, the bucket
    is missing afterwards and there is one bucket fewer; if not, the call
    returns NotFound and changes nothing. Every other bucket is found or
    missed as before, and the stored objects are not touched. *)
Theorem delete_bucket_removes_one st name :
  let st' := snd (drop name st) in
  match fst (head name st) with
  | Returned None =>
      fst (drop name st) = Returned None
      /\ fst (head name st') = Returned (Some NotFound)
      /\ GoMap.len (FakeBuckets st) = S (GoMap.len (FakeBuckets st'))
  | _ => drop name st = (Returned (Some NotFound), st)
  end
  /\ (forall other, other <> name -> fst (head other st') = fst (head other st))
  /\ fakeNonEmptyBucket st' = fakeNonEmptyBucket st.
Proof.
  intros st'. subst st'. rewrite head_answer.
  destruct st as [[buckets |] objects]; unfold drop, DeleteBucket;
    cbn [DeleteBucketInput_Bucket GoMap.lookup FakeBuckets];
    [| repeat split].
  assert (Hothers : forall (found : bool) other, other <> name ->
            fst (head other (if found
                             then mkStore (Some (SMap.remove name buckets)) objects
                             else mkStore (Some buckets) objects))
            = fst (head other (mkStore (Some buckets) objects))).
  { intros found other Hne. rewrite !head_answer.
    destruct found; cbn [GoMap.lookup FakeBuckets]; [| reflexivity].
    rewrite find_remove.
    destruct (String.eqb_spec name other) as [-> |]; [congruence | reflexivity]. }
  destruct (SMap.find name buckets) as [b |] eqn:Hf;
    cbn [GoMap.delete GoMap.len FakeBuckets fakeNonEmptyBucket fst snd].
  - split; [split; [reflexivity | split] | split; [exact (Hothers true) | reflexivity]].
    + rewrite head_answer. cbn [GoMap.lookup FakeBuckets].
      rewrite find_remove, String.eqb_refl. reflexivity.
    + rewrite (cardinal_remove _ buckets name), Hf. reflexivity.
  - split; [reflexivity | split; [exact (Hothers false) | reflexivity]].
Qed.

(** X8. Creating a bucket that was missing and deleting it again leaves
    the buckets as they were: every bucket is found or missed as before
    and their number is the same. *)
Theorem create_then_delete_bucket buckets objects name :
  let st := mkStore (Some buckets) objects in
  fst (head name st) = Returned (Some NotFound) ->
  let st' := snd (drop name (snd (create name st))) in
  fst (drop name (snd (create name st))) = Returned None
  /\ (forall b, fst (head b st') = fst (head b st))
  /\ GoMap.len (FakeBuckets st') = GoMap.len (FakeBuckets st).
Proof.
  intros st Hmiss st'. subst st st'. rewrite head_answer in Hmiss.
  cbn [GoMap.lookup FakeBuckets] in Hmiss.
  destruct (SMap.find name buckets) as [b |] eqn:Hf; [discriminate |].
  unfold create, drop, CreateBucket, DeleteBucket.
  cbn [GoMap.assign GoMap.lookup GoMap.delete GoMap.len fst snd FakeBuckets
       fakeNonEmptyBucket CreateBucketInput_Bucket DeleteBucketInput_Bucket].
  rewrite find_add, String.eqb_refl.
  cbn [GoMap.lookup GoMap.delete GoMap.len fst snd FakeBuckets fakeNonEmptyBucket].
  split; [reflexivity | split].
  - intros b. rewrite !head_answer. cbn [GoMap.lookup FakeBuckets].
    rewrite find_remove, find_add.
    destruct (String.eqb_spec name b) as [<- |]; [rewrite Hf |]; reflexivity.
  - pose proof (cardinal_remove _ (SMap.add name mkFakeBucket buckets) name) as Hr.
    rewrite find_add, String.eqb_refl, cardinal_add, Hf in Hr. lia.
Qed.

Lemma create_then_delete_bucket_witness :
  let st := InitFakeBuckets unset in
  GoMap.len (FakeBuckets st) = 1%nat
  /\ GoMap.len (FakeBuckets (snd (create "newBucket" st))) = 2%nat
  /\ GoMap.len (FakeBuckets (snd (drop "newBucket" (snd (create "newBucket" st))))) = 1%nat
  /\ fst (head "existingBucket" (snd (drop "newBucket" (snd (create "newBucket" st)))))
     = Returned None.
Proof.
  intros st.
  destruct (create_then_delete_bucket
              (SMap.add "existingBucket" mkFakeBucket (SMap.empty fakeBucket))
              None "newBucket" eq_refl) as (_ & Hhead & Hlen).
  split; [reflexivity | split; [reflexivity | split]].
  - exact Hlen.
  - exact (Hhead "existingBucket").
Defined.


(** *** The stored objects *)

Lemma storedKeys_find st k :
  In k (storedKeys st) <-> GoMap.lookup (fakeNonEmptyBucket st) k <> None.
Proof.
  unfold storedKeys, GoMap.lookup. destruct (fakeNonEmptyBucket st) as [m |];
    [| simpl; intuition congruence].
  rewrite <- In_find, SMapFacts.elements_in_iff, in_map_iff. split.
  - intros ([k' o] & Hk & Hin). simpl in Hk. subst k'. exists o.
    apply SetoidList.In_InA; [| exact Hin]. apply SMapProps.eqke_equiv.
  - intros (o & Hin). apply SetoidList.InA_alt in Hin as ([k' o'] & [Hk Ho] & Hin).
    simpl in Hk, Ho. subst. exists (k', o'). auto.
Qed.

Lemma lookup_delete V (m : GoMap.t V) k k' :
  GoMap.lookup (GoMap.delete m k) k'
  = if String.eqb k k' then None else GoMap.lookup m k'.
Proof.
  destruct m as [m |]; cbn [GoMap.lookup GoMap.delete].
  - apply find_remove.
  - destruct (String.eqb k k'); reflexivity.
Qed.

(** The loop over identifiers whose keys are all set. *)
Lemma deleteEach_keys keys : forall m,
  fst (deleteEach (identifiers keys) m) = Returned tt
  /\ forall k, GoMap.lookup (snd (deleteEach (identifiers keys) m)) k
               = if existsb (String.eqb k) keys then None else GoMap.lookup m k.
Proof.
  induction keys as [| key keys IH]; intros m; cbn [identifiers List.map deleteEach
    ObjectIdentifier_Key existsb fst snd].
  - auto.
  - fold (identifiers keys). destruct (IH (GoMap.delete m key)) as [Hret Hlook].
    split; [exact Hret |]. intros k. rewrite Hlook, lookup_delete.
    rewrite (String.eqb_sym k key).
    destruct (String.eqb key k); [rewrite orb_true_l | rewrite orb_false_l];
      destruct (existsb (String.eqb k) keys); reflexivity.
Qed.

Lemma existsb_eqb_In k keys : existsb (String.eqb k) keys = true <-> In k keys.
Proof.
  rewrite existsb_exists. split.
  - intros (x & Hin & Heq). apply String.eqb_eq in Heq. subst. exact Hin.
  - intros Hin. exists k. split; [exact Hin | apply String.eqb_refl].
Qed.

Lemma deleteKeys_run st bucket keys :
  let st' := snd (deleteKeys bucket keys st) in
  fst (deleteKeys bucket keys st) = Returned None
  /\ (forall k, In k (storedKeys st') <-> In k (storedKeys st) /\ ~ In k keys)
  /\ (forall k, GoMap.lookup (fakeNonEmptyBucket st') k
                = if existsb (String.eqb k) keys then None
                  else GoMap.lookup (fakeNonEmptyBucket st) k)
  /\ FakeBuckets st' = FakeBuckets st.
Proof.
  intros st'. subst st'. unfold deleteKeys, DeleteObjects.
  cbn [DeleteObjectsInput_Delete Objects].
  destruct (deleteEach_keys keys (fakeNonEmptyBucket st)) as [Hret Hlook].
  destruct (deleteEach (identifiers keys) (fakeNonEmptyBucket st)) as [[[] |] m];
    [| discriminate].
  cbn [fst snd] in *. split; [reflexivity | split; [| split; [exact Hlook | reflexivity]]].
  intros k. rewrite !storedKeys_find. cbn [fakeNonEmptyBucket]. rewrite Hlook.
  destruct (existsb (String.eqb k) keys) eqn:He.
  - apply existsb_eqb_In in He. intuition congruence.
  - assert (~ In k keys) by (rewrite <- existsb_eqb_In; congruence). intuition.
Qed.

(** X9. [DeleteObjects] with every key set never fails and never looks at
    the bucket it is told: whatever the bucket, it removes the given keys
    from the one object store of the fake, keeps every other key, and
    leaves the buckets alone. *)
Theorem delete_objects_removes_keys st bucket keys :
  let st' := snd (deleteKeys bucket keys st) in
  fst (deleteKeys bucket keys st) = Returned None
  /\ (forall k, In k (storedKeys st') <-> In k (storedKeys st) /\ ~ In k keys)
  /\ FakeBuckets st' = FakeBuckets st
  /\ (forall other, deleteKeys other keys st = deleteKeys bucket keys st).
Proof.
  intros st'. destruct (deleteKeys_run st bucket keys) as (Hret & Hkeys & _ & Hb).
  split; [exact Hret | split; [exact Hkeys | split; [exact Hb | reflexivity]]].
Qed.

(** *** Listing the objects *)

Lemma range_none V (m : GoMap.t V) order :
  (forall k, GoMap.lookup m k = None) -> GoMap.range m order = [].
Proof.
  intros Hnone. unfold GoMap.range.
  induction order as [| k order IH]; cbn [flat_map]; [reflexivity |].
  rewrite (Hnone k), IH. reflexivity.
Qed.

(** On a keyed store, a range lists one object per key of the order it
    takes, each carrying that key. *)
Lemma range_keyed st order :
  keyed st ->
  (forall k, In k order -> GoMap.lookup (fakeNonEmptyBucket st) k <> None) ->
  List.map Key (List.map snd (GoMap.range (fakeNonEmptyBucket st) order))
  = List.map Some order.
Proof.
  intros Hk. unfold GoMap.range.
  induction order as [| k order IH]; intros Hin; cbn [flat_map List.map];
    [reflexivity |].
  destruct (GoMap.lookup (fakeNonEmptyBucket st) k) as [o |] eqn:Hf.
  - cbn [app List.map snd]. rewrite (Hk k o Hf), IH; [reflexivity |].
    intros k' Hk'. apply Hin. right. exact Hk'.
  - destruct (Hin k (or_introl eq_refl) Hf).
Qed.

Lemma identifiers_Key (listed : list Object) keys :
  List.map Key listed = List.map Some keys ->
  List.map (fun o => {| ObjectIdentifier_Key := Key o |}) listed = identifiers keys.
Proof.
  revert keys. induction listed as [| o listed IH]; intros [| key keys] Heq;
    try discriminate; [reflexivity |].
  cbn [List.map] in Heq. injection Heq as Ho Hrest.
  unfold identifiers. cbn [List.map]. rewrite Ho. f_equal. apply IH, Hrest.
Qed.

Lemma keyed_init st : keyed (InitFakeNonEmptyBucket st).
Proof.
  intros k o. unfold InitFakeNonEmptyBucket. cbn [fakeNonEmptyBucket GoMap.lookup].
  rewrite !find_add.
  destruct (String.eqb_spec "key2" k) as [<- |];
    [intros H; injection H as <-; reflexivity |].
  destruct (String.eqb_spec "key1" k) as [<- |];
    [intros H; injection H as <-; reflexivity |].
  rewrite SMapFacts.empty_o. discriminate.
Qed.

(** After [InitFakeNonEmptyBucket] a range may take the two keys either
    way round. *)
Lemma visits_init st order :
  NoDup order -> (forall k, In k order <-> k = "key1" \/ k = "key2") ->
  GoMap.visits (fakeNonEmptyBucket (InitFakeNonEmptyBucket st)) order.
Proof.
  intros Hnd Hkeys. split; [exact Hnd |]. intros k. rewrite Hkeys.
  unfold InitFakeNonEmptyBucket. cbn [fakeNonEmptyBucket GoMap.lookup].
  rewrite !find_add, SMapFacts.empty_o.
  destruct (String.eqb_spec "key2" k) as [<- | H2];
    [split; [discriminate | auto] |].
  destruct (String.eqb_spec "key1" k) as [<- | H1];
    [split; [discriminate | auto] |].
  split; [intros [-> | ->]; congruence | congruence].
Qed.

(** X10. Whatever order the range of [ListObjectsV2] takes over a store
    whose objects carry the key they are stored under, as
    [InitFakeNonEmptyBucket] makes them and [DeleteObjects] keeps them:
    for nonEmptyBucket it lists one object per stored key, in the order of
    the range, and deleting the objects listed, by the keys they carry,
    never fails and leaves nothing to list in any order. For any other
    bucket nothing is ever listed. *)
Theorem list_then_delete_empties st bucket order :
  keyed st ->
  GoMap.visits (fakeNonEmptyBucket st) order ->
  let listed := List.map snd (GoMap.range (fakeNonEmptyBucket st) order) in
  let request :=
    Some {| DeleteObjectsInput_Bucket := bucket;
            DeleteObjectsInput_Delete :=
              Some {| Objects := List.map (fun o => {| ObjectIdentifier_Key := Key o |})
                                          listed |} |} in
  let st' := snd (DeleteObjects request st) in
  contents order "nonEmptyBucket" st = (Returned listed, st)
  /\ List.map Key listed = List.map Some order
  /\ fst (DeleteObjects request st) = Returned None
  /\ (forall k, GoMap.lookup (fakeNonEmptyBucket st') k = None)
  /\ (forall order', contents order' "nonEmptyBucket" st' = (Returned [], st'))
  /\ keyed st'
  /\ (forall order' other,
        other <> "nonEmptyBucket" -> contents order' other st = (Returned [], st))
  /\ keyed (InitFakeNonEmptyBucket st).
Proof.
  intros Hk [Hnd Hvisits] listed request st'.
  assert (Hkeys : List.map Key listed = List.map Some order).
  { apply range_keyed; [exact Hk |]. intros k Hin. apply Hvisits, Hin. }
  subst request st'. rewrite (identifiers_Key listed order Hkeys).
  change (DeleteObjects _ st) with (deleteKeys bucket order st).
  destruct (deleteKeys_run st bucket order) as (Hret & _ & Hlook & _).
  assert (Hnone : forall k,
            GoMap.lookup (fakeNonEmptyBucket (snd (deleteKeys bucket order st))) k = None).
  { intros k. rewrite Hlook. destruct (existsb (String.eqb k) order) eqn:He;
      [reflexivity |].
    destruct (GoMap.lookup (fakeNonEmptyBucket st) k) eqn:Hf; [| reflexivity].
    assert (Hin : In k order) by (apply Hvisits; congruence).
    apply existsb_eqb_In in Hin. congruence. }
  split; [reflexivity | split; [exact Hkeys | split; [exact Hret |]]].
  split; [exact Hnone | split; [| split; [| split]]].
  - intros order'. unfold contents, ListObjectsV2.
    cbn [ListObjectsV2Input_Bucket String.eqb].
    rewrite (range_none _ _ order' Hnone). reflexivity.
  - intros k o Hf. rewrite Hnone in Hf. discriminate.
  - intros order' other Hne. unfold contents, ListObjectsV2.
    cbn [ListObjectsV2Input_Bucket].
    apply String.eqb_neq in Hne. rewrite Hne. reflexivity.
  - apply keyed_init.
Qed.

Lemma list_then_delete_empties_witness :
  let st := InitFakeNonEmptyBucket unset in
  let request :=
    Some {| DeleteObjectsInput_Bucket := Some "nonEmptyBucket";
            DeleteObjectsInput_Delete :=
              Some {| Objects := [ {| ObjectIdentifier_Key := Some "key2" |};
                                   {| ObjectIdentifier_Key := Some "key1" |} ] |} |} in
  fst (contents ["key2"; "key1"] "nonEmptyBucket" st)
  = Returned [mkObject (Some "key2"); mkObject (Some "key1")]
  /\ fst (DeleteObjects request st) = Returned None
  /\ fst (contents ["key1"; "key2"] "nonEmptyBucket" (snd (DeleteObjects request st)))
     = Returned [].
Proof.
  intros st request.
  assert (Horder : GoMap.visits (fakeNonEmptyBucket st) ["key2"; "key1"]).
  { apply visits_init.
    - repeat constructor; simpl; intuition discriminate.
    - intros k. simpl. intuition. }
  destruct (list_then_delete_empties st (Some "nonEmptyBucket") ["key2"; "key1"]
              (keyed_init unset) Horder)
    as (Hlist & _ & Hdel & _ & Hempty & _).
  split; [| split].
  - exact (f_equal fst Hlist).
  - exact Hdel.
  - exact (f_equal fst (Hempty ["key1"; "key2"])).
Defined.

Lemma deleteEach_app keys rest : forall m,
  deleteEach (identifiers keys ++ rest) m
  = deleteEach rest (snd (deleteEach (identifiers keys) m)).
Proof.
  induction keys as [| key keys IH]; intros m;
    cbn [identifiers List.map app deleteEach ObjectIdentifier_Key snd].
  - reflexivity.
  - fold (identifiers keys). apply IH.
Qed.

(** X11. [DeleteObjects] is not all or nothing: at the first identifier
    whose key is nil it panics, the keys before it already removed from
    the store and the keys after it still there. *)
Theorem delete_objects_stops_at_nil_key st bucket before after :
  let request :=
    Some {| DeleteObjectsInput_Bucket := bucket;
            DeleteObjectsInput_Delete :=
              Some {| Objects := (identifiers before
                                  ++ {| ObjectIdentifier_Key := None |} :: after)%list |} |} in
  let st' := snd (DeleteObjects request st) in
  fst (DeleteObjects request st) = Panicked
  /\ (forall k, In k (storedKeys st') <-> In k (storedKeys st) /\ ~ In k before)
  /\ FakeBuckets st' = FakeBuckets st.
Proof.
  intros request st'. subst request st'. unfold DeleteObjects.
  cbn [DeleteObjectsInput_Delete Objects]. rewrite deleteEach_app.
  cbn [deleteEach ObjectIdentifier_Key].
  destruct (deleteKeys_run st bucket before) as (_ & Hkeys & _).
  unfold deleteKeys, DeleteObjects in Hkeys. cbn [DeleteObjectsInput_Delete Objects] in Hkeys.
  destruct (deleteEach_keys before (fakeNonEmptyBucket st)) as [Hret _].
  destruct (deleteEach (identifiers before) (fakeNonEmptyBucket st)) as [[[] |] m];
    [| discriminate].
  cbn [fst snd] in *. split; [reflexivity | split; [exact Hkeys | reflexivity]].
Qed.

End FakeS3Facts.

(** ** The fake SQS client *)
Module FakeSqsFacts.
Import FakeSqs.

Lemma skipn_nth {A : Type} (l : list A) : forall i x,
  nth_error l i = Some x -> skipn i l = x :: skipn (S i) l.
Proof.
  induction l as [| y l IH]; intros [| i] x H; simpl in H; try discriminate.
  - injection H as ->. reflexivity.
  - apply (IH i x H).
Qed.

Lemma collect_run FakeQueue : forall n i messages,
  (i <= length FakeQueue)%nat ->
  collect FakeQueue i n messages
  = if (i + n <=? length FakeQueue)%nat
    then Returned (messages ++ firstn n (skipn i FakeQueue))%list
    else Panicked.
Proof.
  induction n as [| n IH]; intros i messages Hi; cbn [collect].
  - rewrite Nat.add_0_r. destruct (Nat.leb_spec i (length FakeQueue)); [| lia].
    cbn [firstn]. rewrite app_nil_r. reflexivity.
  - destruct (nth_error FakeQueue i) as [m |] eqn:Hnth.
    + assert (Hlt : (i < length FakeQueue)%nat)
        by (apply nth_error_Some; congruence).
      rewrite IH by lia. rewrite (skipn_nth FakeQueue i m Hnth).
      replace (S i + n)%nat with (i + S n)%nat by lia.
      destruct (i + S n <=? length FakeQueue)%nat; [| reflexivity].
      cbn [firstn]. rewrite <- app_assoc. reflexivity.
    + apply nth_error_None in Hnth.
      destruct (Nat.leb_spec (i + S n) (length FakeQueue)); [lia | reflexivity].
Qed.

Lemma receive_run FakeQueue url max :
  receive url max FakeQueue
  = if String.eqb url "nonEmptyQueueUrl"
    then if max <=? Z.of_nat (length FakeQueue)
         then Returned (firstn (Z.to_nat max) FakeQueue)
         else Panicked
    else Returned [].
Proof.
  unfold receive, ReceiveMessage. cbn [QueueUrl MaxNumberOfMessages].
  destruct (String.eqb url "nonEmptyQueueUrl"); [| reflexivity].
  rewrite collect_run by lia. cbn [skipn app Nat.add].
  destruct (Z.leb_spec max (Z.of_nat (length FakeQueue)));
    destruct (Nat.leb_spec (Z.to_nat max) (length FakeQueue)); try lia; reflexivity.
Qed.

(** X12. [ReceiveMessage] on the URL of the non-empty queue returns the
    first [MaxNumberOfMessages] messages of the queue in their order, none
    for a count that is zero or negative, and panics when asked for more
    messages than the queue holds; on any other URL it returns no message,
    whatever the queue holds and however many are asked. *)
Theorem receive_returns_a_prefix FakeQueue max :
  (max <= Z.of_nat (length FakeQueue) ->
     exists rest,
       receive "nonEmptyQueueUrl" max FakeQueue = Returned (firstn (Z.to_nat max) FakeQueue)
       /\ FakeQueue = (firstn (Z.to_nat max) FakeQueue ++ rest)%list
       /\ Z.of_nat (length (firstn (Z.to_nat max) FakeQueue)) = Z.max 0 max)
  /\ (Z.of_nat (length FakeQueue) < max ->
      receive "nonEmptyQueueUrl" max FakeQueue = Panicked)
  /\ (forall url, url <> "nonEmptyQueueUrl" -> receive url max FakeQueue = Returned []).
Proof.
  split; [| split].
  - intros Hle. exists (skipn (Z.to_nat max) FakeQueue).
    rewrite receive_run. cbn [String.eqb Ascii.eqb Bool.eqb].
    destruct (Z.leb_spec max (Z.of_nat (length FakeQueue))); [| lia].
    split; [reflexivity | split].
    + symmetry. apply firstn_skipn.
    + rewrite length_firstn. lia.
  - intros Hgt. rewrite receive_run. cbn [String.eqb Ascii.eqb Bool.eqb].
    destruct (Z.leb_spec max (Z.of_nat (length FakeQueue))); [lia | reflexivity].
  - intros url Hne. rewrite receive_run. apply String.eqb_neq in Hne. rewrite Hne.
    reflexivity.
Qed.

Lemma receive_returns_a_prefix_witness :
  let m1 := mkMessage (Some "fake-msg-1") in
  let m2 := mkMessage (Some "fake-msg-2") in
  receive "nonEmptyQueueUrl" 1 [m1; m2] = Returned [m1]
  /\ receive "nonEmptyQueueUrl" 3 [m1; m2] = Panicked
  /\ receive "emptyQueueUrl" 3 [m1; m2] = Returned [].
Proof.
  intros m1 m2.
  destruct (receive_returns_a_prefix [m1; m2] 1) as (Hfirst & _ & _).
  destruct (receive_returns_a_prefix [m1; m2] 3) as (_ & Hmore & Hother).
  split; [| split].
  - destruct Hfirst as (rest & Hr & _); [simpl; lia | exact Hr].
  - apply Hmore. simpl. lia.
  - apply Hother. discriminate.
Defined.

Lemma DeleteMessage_skipn FakeQueue : DeleteMessage FakeQueue = skipn 1 FakeQueue.
Proof. destruct FakeQueue; reflexivity. Qed.

Lemma deleteTimes_skipn k : forall FakeQueue, deleteTimes k FakeQueue = skipn k FakeQueue.
Proof.
  induction k as [| k IH]; intros FakeQueue; cbn [deleteTimes]; [reflexivity |].
  rewrite IH, DeleteMessage_skipn. destruct FakeQueue; [destruct k |]; reflexivity.
Qed.

(** X13. [DeleteMessage] takes messages off the front, one per call and
    none once the queue is empty, whatever message the caller meant: after
    [k] calls the queue is the old one less its first [k] messages, and the
    message received next is the one that stood at place [k], if there is
    one. [ReceiveMessage] itself takes nothing off the queue. *)
Theorem delete_message_is_fifo FakeQueue k :
  deleteTimes k FakeQueue = skipn k FakeQueue
  /\ length (deleteTimes k FakeQueue) = (length FakeQueue - k)%nat
  /\ receive "nonEmptyQueueUrl" 1 (deleteTimes k FakeQueue)
     = match nth_error FakeQueue k with
       | Some m => Returned [m]
       | None => Panicked
       end.
Proof.
  rewrite deleteTimes_skipn. split; [reflexivity | split; [apply length_skipn |]].
  rewrite receive_run. cbn [String.eqb Ascii.eqb Bool.eqb]. rewrite length_skipn.
  destruct (nth_error FakeQueue k) as [m |] eqn:Hnth.
  - assert (Hlt : (k < length FakeQueue)%nat) by (apply nth_error_Some; congruence).
    destruct (Z.leb_spec 1 (Z.of_nat (length FakeQueue - k))); [| lia].
    rewrite (skipn_nth FakeQueue k m Hnth). reflexivity.
  - apply nth_error_None in Hnth.
    destruct (Z.leb_spec 1 (Z.of_nat (length FakeQueue - k))); [lia | reflexivity].
Qed.

(** X14. [InitFakeQueue] forgets the queue it finds: what it leaves
    depends on the name alone, the two fake messages fake-msg-1 and
    fake-msg-2, in that order, for nonEmptyQueue and the empty queue for
    any other name. With the URL that [GetQueueUrl] gives for the same
    name, [ReceiveMessage] then returns the first messages asked when the
    name is nonEmptyQueue and at most two are asked, panics when more are
    asked, and returns nothing for any other name. *)
Theorem init_queue_then_receive queueName before max :
  let FakeQueue := InitFakeQueue queueName before in
  FakeQueue
  = (if String.eqb queueName "nonEmptyQueue"
     then [mkMessage (Some "fake-msg-1"); mkMessage (Some "fake-msg-2")]
     else [])
  /\ (queueName <> "nonEmptyQueue" -> FakeQueue = [])
  /\ (forall url, urlOf queueName = Returned url ->
        receive url max FakeQueue
        = if String.eqb queueName "nonEmptyQueue"
          then if max <=? 2
               then Returned (firstn (Z.to_nat max)
                                [mkMessage (Some "fake-msg-1"); mkMessage (Some "fake-msg-2")])
               else Panicked
          else Returned [])
  /\ exists url, urlOf queueName = Returned url.
Proof.
  intros FakeQueue. subst FakeQueue. unfold InitFakeQueue, urlOf, GetQueueUrl.
  cbn [QueueName firstn app].
  split; [reflexivity | split; [| split]].
  - intros Hname. apply String.eqb_neq in Hname. rewrite Hname. reflexivity.
  - intros url Hurl. injection Hurl as <-. rewrite receive_run.
    destruct (String.eqb queueName "nonEmptyQueue"); reflexivity.
  - eexists. reflexivity.
Qed.

End FakeSqsFacts.

(** ** Reading the identifier back *)
Module E2EFacts.
Import E2E.

Lemma Split_nonempty s sep : Split s sep <> [].
Proof.
  destruct s as [| c s]; simpl; [discriminate |].
  destruct (Ascii.eqb c sep); [discriminate |].
  destruct (Split s sep); discriminate.
Qed.

Lemma Split_noBlank s : noBlank s = true -> Split s " " = [s].
Proof.
  induction s as [| c s IH]; simpl; intros H; [reflexivity |].
  apply andb_true_iff in H as [Hc Hs]. apply negb_true_iff in Hc.
  rewrite Hc, (IH Hs). reflexivity.
Qed.

Lemma last_cons_nonempty {A : Type} (x : A) l d : l <> [] -> last (x :: l) d = last l d.
Proof. destruct l; [congruence | reflexivity]. Qed.

(** The last field is what follows the last blank. *)
Lemma last_Split_blank a b d :
  last (Split (a ++ String " " b) " ") d = last (Split b " ") d.
Proof.
  induction a as [| c a IH]; simpl.
  - apply last_cons_nonempty, Split_nonempty.
  - destruct (Ascii.eqb c " ").
    + rewrite last_cons_nonempty by apply Split_nonempty. exact IH.
    + destruct (Split (a ++ String " " b) " ") as [| field fields] eqn:Hs.
      * destruct (Split_nonempty _ _ Hs).
      * destruct fields as [| field' fields].
        -- (* one field only: impossible, the blank splits *)
           exfalso. clear IH.
           assert (Hlen : (2 <= length (Split (a ++ String " " b) " "))%nat).
           { clear Hs. induction a as [| c' a IHa]; simpl.
             - pose proof (Split_nonempty b " "). destruct (Split b " "); simpl; [congruence | lia].
             - destruct (Ascii.eqb c' " "); simpl; [lia |].
               destruct (Split (a ++ String " " b) " ") as [| f fs]; simpl in *; lia. }
           rewrite Hs in Hlen. simpl in Hlen. lia.
        -- rewrite <- IH. reflexivity.
Qed.

Lemma length_append s t : String.length (s ++ t) = (String.length s + String.length t)%nat.
Proof. induction s as [| c s IH]; simpl; [| rewrite IH]; reflexivity. Qed.

Lemma substring_all s : substring 0 (String.length s) s = s.
Proof. induction s as [| c s IH]; simpl; [| rewrite IH]; reflexivity. Qed.

Lemma substring_front s t : substring 0 (String.length s) (s ++ t) = s.
Proof.
  induction s as [| c s IH]; simpl; [destruct t |]; [reflexivity .. | rewrite IH; reflexivity].
Qed.

Lemma substring_back s t : substring (String.length s) (String.length t) (s ++ t) = t.
Proof. induction s as [| c s IH]; simpl; [apply substring_all | exact IH]. Qed.

Lemma TrimSuffix_append s suffix : TrimSuffix (s ++ suffix) suffix = s.
Proof.
  unfold TrimSuffix, HasSuffix. rewrite length_append.
  replace (String.length s + String.length suffix - String.length suffix)%nat
    with (String.length s) by lia.
  rewrite substring_back, String.eqb_refl, substring_front.
  destruct (Nat.leb_spec (String.length suffix) (String.length s + String.length suffix));
    [reflexivity | lia].
Qed.

Lemma noBlank_append s t : noBlank (s ++ t) = noBlank s && noBlank t.
Proof.
  induction s as [| c s IH]; simpl; [reflexivity |].
  rewrite IH, andb_assoc. reflexivity.
Qed.

Lemma jobId_after_blank before id :
  noBlank id = true -> jobId (before ++ String " " (id ++ nl)) = id.
Proof.
  intros Hid. unfold jobId. rewrite last_Split_blank, Split_noBlank.
  - simpl. apply TrimSuffix_append.
  - rewrite noBlank_append, Hid. reflexivity.
Qed.

Lemma stdout_snoc t s : stdout (t ++ [EvPrint s]) = stdout t ++ s.
Proof.
  unfold stdout. rewrite printed_app. cbn [printed].
  induction (printed t) as [| x xs IH]; cbn [app String.concat].
  - reflexivity.
  - destruct xs as [| y ys]; cbn [app] in *.
    + cbn. reflexivity.
    + rewrite IH. cbn. rewrite append_assoc. reflexivity.
Qed.


(** X15. The identifier the e2e test reads off standard output is the one
    the command printed, provided the identifier holds no blank: whatever
    was printed before, the last blank-separated field of the output that
    ends with the confirmation, less its newline, is the identifier. So
    after an invocation without [--wait] that succeeded, the test polls and
    retrieves the very job that was posted under policy-reco-<id>. *)
Theorem job_id_read_back L C f st id st1 before :
  noBlank id = true ->
  jobId (before ++ createdMessage id) = id
  /\ (submitJob L C f st = (Ok id, st1) -> flag_wait f = false ->
      let st' := snd (RunE L C f st) in
      jobId (stdout (trace st')) = id
      /\ exists app, posted (trace st') = (posted (trace st) ++ [app])%list
                     /\ jobName app = "policy-reco-" ++ id).
Proof.
  intros Hid.
  assert (Hread : forall text, jobId (text ++ createdMessage id) = id).
  { intros text. unfold createdMessage.
    change ("Successfully created policy recommendation job with ID " ++ id ++ nl)
      with ("Successfully created policy recommendation job with ID"
            ++ String " " (id ++ nl)).
    rewrite <- append_assoc. apply jobId_after_blank, Hid. }
  split; [apply Hread |].
  intros Hs Hw st'. subst st'.
  assert (Hrun : RunE L C f st = (Ok tt, andThen st1 [EvPrint (createdMessage id)])).
  { unfold RunE. unfold bind at 1. rewrite Hs, Hw. reflexivity. }
  rewrite Hrun. cbn [snd andThen trace]. split.
  - rewrite stdout_snoc. apply Hread.
  - apply submitJob_inv in Hs as (args & res & _ & _ & ->).
    eexists. split.
    + unfold submitted. cbn [trace]. rewrite !posted_app. cbn. rewrite app_nil_r.
      reflexivity.
    + reflexivity.
Qed.

Lemma job_id_read_back_witness :
  let C := Sample.cluster [] (Ok "RUNNING") (Ok "") in
  let printedByRun := stdout (trace (snd (RunE Sample.lib C defaultFlags initState))) in
  printedByRun = "Successfully created policy recommendation job with ID "
                 ++ "e998433e-accb-4888-9fc8-06563f071000" ++ nl
  /\ jobId printedByRun = "e998433e-accb-4888-9fc8-06563f071000".
Proof.
  intros C printedByRun. split; [reflexivity |].
  destruct (job_id_read_back Sample.lib C defaultFlags initState (Sample.newUUID 0)
              (snd (submitJob Sample.lib C defaultFlags initState)) "" eq_refl)
    as (_ & Hrun).
  destruct (Hrun eq_refl eq_refl) as (Hid & _). exact Hid.
Defined.

End E2EFacts.

(** ** More on [RunE] *)

Lemma submitJob_run L C f st args res :
  validate L f = Ok (args, res) ->
  let id := uuid_New C (drawn st) in
  let app := recommendationApplication (args ++ ["--id"; id])%list res id in
  submitJob L C f st =
    match ResolveKubeConfig C with
    | Err e => (Err e, andThen st [EvResolveKubeConfig])
    | Ok _ =>
        match CreateK8sClient C with
        | Err e => (Err (errCreateK8sClient e),
                    andThen st [EvResolveKubeConfig; EvCreateK8sClient])
        | Ok _ =>
            match PolicyRecoPreCheck C with
            | Err e => (Err e, andThen st [EvResolveKubeConfig; EvCreateK8sClient;
                                           EvPolicyRecoPreCheck])
            | Ok _ =>
                (match Post C app with Ok _ => Ok id | Err e => Err e end,
                 submitted st app)
            end
        end
    end.
Proof.
  intros Hv id app. unfold submitJob. rewrite Hv.
  unfold bind, wrapErr, call, bind, emit, uuid_New_String, ret, andThen, submitted.
  cbn [drawn queries slept trace].
  destruct (ResolveKubeConfig C); [| reflexivity].
  destruct (CreateK8sClient C); cbn [drawn queries slept trace];
    rewrite <- ?app_assoc; [| reflexivity].
  destruct (PolicyRecoPreCheck C); cbn [drawn queries slept trace];
    rewrite <- ?app_assoc; [| reflexivity].
  fold id. fold app.
  destruct (Post C app); cbn [drawn queries slept trace]; rewrite <- ?app_assoc; reflexivity.
Qed.

Lemma RunE_submit_failed L C f st e st1 :
  submitJob L C f st = (Err e, st1) -> RunE L C f st = (Err e, st1).
Proof. intros Hs. unfold RunE. unfold bind at 1. rewrite Hs. reflexivity. Qed.

(** X16. Once the checks have passed, a failure of any call on the way to
    the submission ends the invocation with the error of that call, the
    one of [CreateK8sClient] worded by the command, and no later call is
    made: no identifier is drawn and nothing is posted when the kubeconfig,
    the client or the pre-check fails, and when the POST itself fails the
    job is never polled, [--wait] or not. *)
Theorem errors_before_polling L C f st args res :
  validate L f = Ok (args, res) ->
  let id := uuid_New C (drawn st) in
  let app := recommendationApplication (args ++ ["--id"; id])%list res id in
  (forall e, ResolveKubeConfig C = Err e ->
     RunE L C f st = (Err e, andThen st [EvResolveKubeConfig]))
  /\ (forall e, ResolveKubeConfig C = Ok tt -> CreateK8sClient C = Err e ->
     RunE L C f st
     = (Err (Errorf ("couldn't create k8s client using given kubeconfig, " ++ Error e)),
        andThen st [EvResolveKubeConfig; EvCreateK8sClient]))
  /\ (forall e, ResolveKubeConfig C = Ok tt -> CreateK8sClient C = Ok tt ->
     PolicyRecoPreCheck C = Err e ->
     RunE L C f st
     = (Err e, andThen st [EvResolveKubeConfig; EvCreateK8sClient; EvPolicyRecoPreCheck]))
  /\ (forall e, ResolveKubeConfig C = Ok tt -> CreateK8sClient C = Ok tt ->
     PolicyRecoPreCheck C = Ok tt -> Post C app = Err e ->
     RunE L C f st = (Err e, submitted st app)
     /\ queries (submitted st app) = queries st).
Proof.
  intros Hv id app.
  pose proof (submitJob_run L C f st args res Hv) as Hs. cbn zeta in Hs.
  fold id in Hs. fold app in Hs.
  split; [| split; [| split]].
  - intros e Hr. apply RunE_submit_failed. rewrite Hs, Hr. reflexivity.
  - intros e Hr Hc. apply RunE_submit_failed. rewrite Hs, Hr, Hc. reflexivity.
  - intros e Hr Hc Hp. apply RunE_submit_failed. rewrite Hs, Hr, Hc, Hp. reflexivity.
  - intros e Hr Hc Hp Hpost. split; [| reflexivity].
    apply RunE_submit_failed. rewrite Hs, Hr, Hc, Hp, Hpost. reflexivity.
Qed.

Lemma errors_before_polling_witness :
  (fst (RunE Sample.lib
          (clusterAnswering (Ok tt) (Ok tt) (Ok tt)
                            (Err (Foreign "sparkapplications is forbidden")))
          (Sample.waiting "") initState)
     = Err (Foreign "sparkapplications is forbidden")
   /\ queries (snd (RunE Sample.lib
                      (clusterAnswering (Ok tt) (Ok tt) (Ok tt)
                                        (Err (Foreign "sparkapplications is forbidden")))
                      (Sample.waiting "") initState)) = 0%nat)
  /\ RunE Sample.lib
       (clusterAnswering (Ok tt) (Err (Foreign "connection refused")) (Ok tt) (Ok tt))
       (Sample.waiting "") initState
     = (Err (Errorf "couldn't create k8s client using given kubeconfig, connection refused"),
        mkState 0 0 0 [EvResolveKubeConfig; EvCreateK8sClient]).
Proof.
  split.
  - destruct (errors_before_polling Sample.lib
                (clusterAnswering (Ok tt) (Ok tt) (Ok tt)
                                  (Err (Foreign "sparkapplications is forbidden")))
                (Sample.waiting "") initState
                (encodedArgs (Sample.waiting "") 1) (resourcesOf (Sample.waiting ""))
                eq_refl) as (_ & _ & _ & Hpost).
    destruct (Hpost (Foreign "sparkapplications is forbidden")
                    eq_refl eq_refl eq_refl eq_refl) as (Hrun & Hq).
    rewrite Hrun. split; [reflexivity | exact Hq].
  - destruct (errors_before_polling Sample.lib
                (clusterAnswering (Ok tt) (Err (Foreign "connection refused"))
                                  (Ok tt) (Ok tt))
                (Sample.waiting "") initState
                (encodedArgs (Sample.waiting "") 1) (resourcesOf (Sample.waiting ""))
                eq_refl) as (_ & Hclient & _).
    exact (Hclient (Foreign "connection refused") eq_refl eq_refl).
Defined.

(** *** What is printed *)

Lemma submitJob_quiet L C f st :
  printed (trace (snd (submitJob L C f st))) = printed (trace st).
Proof.
  destruct (validate L f) as [[args res] | e] eqn:Hv.
  - rewrite (submitJob_run L C f st args res Hv).
    destruct (ResolveKubeConfig C); [| cbn; rewrite printed_app; cbn; apply app_nil_r].
    destruct (CreateK8sClient C); [| cbn; rewrite printed_app; cbn; apply app_nil_r].
    destruct (PolicyRecoPreCheck C); [| cbn; rewrite printed_app; cbn; apply app_nil_r].
    cbn. rewrite printed_app. cbn. apply app_nil_r.
  - rewrite (submitJob_invalid L C f e st Hv). reflexivity.
Qed.

Lemma printed_queries id n : printed (repeat (EvGetStatus id) n) = [].
Proof. induction n; simpl; auto. Qed.

Lemma afterQueries_quiet st id n d :
  printed (trace (afterQueries st id n d)) = printed (trace st).
Proof. cbn. rewrite printed_app, printed_queries. apply app_nil_r. Qed.

Lemma waitFor_quiet C id interval rest : forall ticks st,
  printed (trace (snd (waitFor ticks interval rest (pollCondition C id) st)))
  = printed (trace st).
Proof.
  induction ticks as [| n IH]; intros st; cbn [waitFor]; rewrite round_run; cbn zeta;
    destruct (getPolicyRecommendationStatus C (queries st) id) as [state | e];
    try apply afterQueries_quiet;
    destruct (String.eqb state "COMPLETED"); try apply afterQueries_quiet;
    destruct (isFailureState state); try apply afterQueries_quiet.
  rewrite IH. apply afterQueries_quiet.
Qed.

Lemma RunE_run L C f st :
  RunE L C f st =
    match submitJob L C f st with
    | (Err e, st1) => (Err e, st1)
    | (Ok id, st1) =>
        if flag_wait f then
          match pollStatus C id st1 with
          | (Err e, st2) => (Err e, st2)
          | (Ok _, st2) => fetchResult L C f id st2
          end
        else (Ok tt, andThen st1 [EvPrint (createdMessage id)])
    end.
Proof.
  unfold RunE. unfold bind at 1.
  destruct (submitJob L C f st) as [[id | e] st1]; [| reflexivity].
  destruct (flag_wait f); [| reflexivity].
  unfold bind. destruct (pollStatus C id st1) as [[[] | e] st2]; reflexivity.
Qed.

Lemma RunE_keeps_after_submit L C f st :
  keeps (snd (submitJob L C f st)) (snd (RunE L C f st)).
Proof.
  rewrite RunE_run.
  destruct (submitJob L C f st) as [[id | e] st1]; cbn [snd]; [| apply keeps_refl].
  destruct (flag_wait f).
  - pose proof (waitFor_keeps C id statusCheckPollInterval 0 pollTicks st1) as Hp.
    rewrite <- pollStatus_waitFor in Hp.
    destruct (pollStatus C id st1) as [[[] | e] st2]; cbn [snd] in *; [| exact Hp].
    eapply keeps_trans; [exact Hp | apply fetchResult_keeps].
  - split; cbn; [reflexivity |]. rewrite posted_app. cbn. apply app_nil_r.
Qed.

(** X17. An invocation that returns an error has printed nothing. One
    that succeeds has posted one job, under the identifier it drew, and has
    printed at most one thing, about that very job: without [--wait] the
    line Successfully created policy recommendation job with ID <id>, and
    with [--wait] the result retrieved for <id>, or nothing if that result
    is empty. *)
Theorem prints_only_on_success L C f st :
  let st' := snd (RunE L C f st) in
  let id := uuid_New C (drawn st) in
  match fst (RunE L C f st) with
  | Err _ => printed (trace st') = printed (trace st)
  | Ok _ =>
      (exists app, posted (trace st') = (posted (trace st) ++ [app])%list
                   /\ metav1.Name (sparkv1.ObjectMeta app) = "policy-reco-" ++ id)
      /\ if flag_wait f
         then exists recoResult,
                getPolicyRecommendationResult C (flag_clickhouse_endpoint f)
                  (flag_use_cluster_ip f) (flag_file f) id = Ok recoResult
                /\ printed (trace st')
                   = (printed (trace st)
                      ++ (if String.eqb recoResult "" then [] else [recoResult]))%list
         else printed (trace st')
              = (printed (trace st)
                 ++ [("Successfully created policy recommendation job with ID "
                      ++ id ++ nl)%string])%list
  end.
Proof.
  intros st' id. subst st'.
  pose proof (submitJob_quiet L C f st) as Hq.
  pose proof (RunE_keeps_after_submit L C f st) as [_ Hkept].
  destruct (submitJob L C f st) as [[id' | e] st1] eqn:Hsub.
  2: { rewrite RunE_run, Hsub. exact Hq. }
  destruct (submitJob_inv L C f st id' st1 Hsub) as (args & res & _ & Hid & Hst1).
  fold id in Hid. subst id'. cbn [snd] in Hq, Hkept.
  assert (Hposted : exists app,
            posted (trace (snd (RunE L C f st))) = (posted (trace st) ++ [app])%list
            /\ metav1.Name (sparkv1.ObjectMeta app) = "policy-reco-" ++ id).
  { rewrite Hkept, Hst1. cbn [submitted trace]. rewrite posted_app.
    eexists. split; reflexivity. }
  clear Hkept. revert Hposted. rewrite RunE_run, Hsub. intros Hposted.
  destruct (flag_wait f).
  - pose proof (waitFor_quiet C id statusCheckPollInterval 0 pollTicks st1) as Hp.
    rewrite <- pollStatus_waitFor in Hp.
    destruct (pollStatus C id st1) as [[[] | e] st2]; cbn [snd fst] in Hp |- *;
      [| congruence].
    revert Hposted. rewrite fetchResult_run. cbn zeta.
    destruct (if String.eqb (flag_clickhouse_endpoint f) "" then Ok tt
              else url_ParseRequestURI L (flag_clickhouse_endpoint f));
      cbn [fst snd]; [| congruence].
    destruct (CheckClickHousePod C); cbn [fst snd];
      [| intros _; cbn [andThen trace]; rewrite printed_app; cbn;
         rewrite app_nil_r; congruence].
    destruct (getPolicyRecommendationResult C (flag_clickhouse_endpoint f)
                (flag_use_cluster_ip f) (flag_file f) id) as [recoResult | e] eqn:Hres;
      cbn [fst snd];
      [| intros _; cbn [andThen trace]; rewrite printed_app; cbn;
         rewrite app_nil_r; congruence].
    intros Hposted. split; [exact Hposted |].
    exists recoResult. split; [reflexivity |]. cbn [andThen trace].
    rewrite printed_app, Hp, Hq. destruct (String.eqb recoResult ""); reflexivity.
  - cbn [fst snd] in Hposted |- *. split; [exact Hposted |].
    cbn [andThen trace]. rewrite printed_app, Hq. reflexivity.
Qed.

(** *** What is posted *)

Lemma optionCode_123 name code : optionCode name = Some code -> In code [1; 2; 3].
Proof.
  unfold optionCode, optionTable. cbn.
  repeat (destruct (String.eqb _ _); [intros H; injection H as <-; simpl; auto |]).
  discriminate.
Qed.

(** What passes the checks makes a well-formed SparkApplication. *)
Lemma validated_wellFormed L f args res id :
  validate L f = Ok (args, res) ->
  wellFormed (recommendationApplication (args ++ ["--id"; id])%list res id).
Proof.
  intros Hv. apply validate_Ok_checks in Hv as (Hff & -> & ->).
  unfold checks in Hff. cbn [firstFailure] in Hff.
  unfold checkType in Hff.
  destruct (negb (String.eqb (flag_type f) "initial")
            && negb (String.eqb (flag_type f) "subsequent")) eqn:Htype; [discriminate |].
  unfold checkLimit in Hff. destruct (flag_limit f <? 0) eqn:Hlimit; [discriminate |].
  unfold checkOption in Hff. unfold codeOf.
  destruct (optionCode (flag_option f)) as [code |] eqn:Hcode; [| discriminate].
  destruct (checkStartTime L f); [discriminate |].
  destruct (checkEndTime L f); [discriminate |].
  destruct (checkNsAllowList L f); [discriminate |].
  unfold checkExecutorInstances in Hff.
  destruct (flag_executor_instances f <? 0) eqn:Hinst; [discriminate |].
  unfold checkQuantity in Hff.
  destruct (Regexp.matches k8sQuantitiesReg (flag_driver_core_request f)) eqn:H1;
    [| discriminate].
  destruct (Regexp.matches k8sQuantitiesReg (flag_driver_memory f)) eqn:H2;
    [| discriminate].
  destruct (Regexp.matches k8sQuantitiesReg (flag_executor_core_request f)) eqn:H3;
    [| discriminate].
  destruct (Regexp.matches k8sQuantitiesReg (flag_executor_memory f)) eqn:H4;
    [| discriminate].
  split; [reflexivity | split].
  - unfold sized.
    cbn [recommendationApplication resourcesOf sparkv1.Spec sparkv1.Driver
         sparkv1.Executor sparkv1.DriverCoreRequest sparkv1.Memory
         sparkv1.DriverPodSpec sparkv1.ExecutorCoreRequest sparkv1.ExecutorPodSpec
         sparkv1.Instances driverCoreRequest driverMemory executorCoreRequest
         executorMemory executorInstances].
    rewrite H1, H2, H3, H4. apply Z.ltb_ge in Hinst. apply Z.leb_le in Hinst.
    rewrite Hinst. reflexivity.
  - exists id, (flag_type f), (flag_limit f), code.
    exists (whenGiven "--start_time" (flag_start_time f)
            ++ whenGiven "--end_time" (flag_end_time f)
            ++ whenGiven "--ns_allow_list" (flag_ns_allow_list f)
            ++ ["--rm_labels"; FormatBool (flag_rm_labels f);
                "--to_services"; FormatBool (flag_to_services f)])%list.
    split; [reflexivity | split; [| split; [| split]]].
    + unfold encodedArgs.
      cbn [recommendationApplication sparkv1.Spec sparkv1.Arguments].
      rewrite <- app_assoc. reflexivity.
    + apply andb_false_iff in Htype. simpl.
      destruct Htype as [H | H]; apply negb_false_iff, String.eqb_eq in H; auto.
    + apply Z.ltb_ge in Hlimit. exact Hlimit.
    + eapply optionCode_123, Hcode.
Qed.

(** An invocation posts nothing, or one SparkApplication built from flags
    that passed the checks. *)
Lemma RunE_posts L C f st :
  posted (trace (snd (RunE L C f st))) = posted (trace st)
  \/ exists args res id,
       validate L f = Ok (args, res)
       /\ posted (trace (snd (RunE L C f st)))
          = (posted (trace st)
             ++ [recommendationApplication (args ++ ["--id"; id])%list res id])%list.
Proof.
  destruct (RunE_keeps_after_submit L C f st) as [_ Hposted]. rewrite Hposted.
  destruct (validate L f) as [[args res] | e] eqn:Hv.
  - rewrite (submitJob_run L C f st args res Hv).
    destruct (ResolveKubeConfig C);
      [| left; cbn; rewrite posted_app; cbn; apply app_nil_r].
    destruct (CreateK8sClient C);
      [| left; cbn; rewrite posted_app; cbn; apply app_nil_r].
    destruct (PolicyRecoPreCheck C);
      [| left; cbn; rewrite posted_app; cbn; apply app_nil_r].
    right. exists args, res, (uuid_New C (drawn st)). split; [reflexivity |].
    cbn [snd submitted trace]. rewrite posted_app. reflexivity.
  - left. rewrite (submitJob_invalid L C f e st Hv). reflexivity.
Qed.

(** X18. Nothing reaches the cluster unchecked: every SparkApplication an
    invocation posts lies in the flow-visibility namespace, is named
    policy-reco-<id> with [--id <id>] closing its arguments, opens its
    arguments with a known type, a limit that is not negative and an option
    code from 1 to 3, and carries quantities that match the pattern and an
    executor count that is not negative. Any number of invocations keep a
    trace of such submissions so, whatever the cluster answers, and each
    invocation posts at most once. *)
Theorem posted_jobs_are_well_formed L C f n st :
  Forall wellFormed (posted (trace st)) ->
  Forall wellFormed (posted (trace (runs L C f n st)))
  /\ (length (posted (trace (runs L C f n st))) <= length (posted (trace st)) + n)%nat.
Proof.
  revert st. induction n as [| n IH]; intros st Hst; cbn [runs].
  - split; [exact Hst | lia].
  - assert (Hstep : Forall wellFormed (posted (trace (snd (RunE L C f st))))
                    /\ (length (posted (trace (snd (RunE L C f st))))
                        <= length (posted (trace st)) + 1)%nat).
    { destruct (RunE_posts L C f st) as [-> | (args & res & id & Hv & ->)].
      - split; [exact Hst | lia].
      - split.
        + apply Forall_app. split; [exact Hst |].
          constructor; [| constructor]. eapply validated_wellFormed, Hv.
        + rewrite length_app. simpl. lia. }
    destruct Hstep as [Hwf Hlen]. destruct (IH _ Hwf) as [Hall Hn].
    split; [exact Hall | lia].
Qed.

Lemma posted_jobs_are_well_formed_witness :
  Forall wellFormed
    (posted (trace (runs Sample.lib
                      (Sample.cluster [Ok "RUNNING"; Ok "FAILED"] (Ok "COMPLETED")
                                      (Ok "policy"))
                      (Sample.waiting "") 3 initState)))
  /\ (length (posted (trace (runs Sample.lib
                      (Sample.cluster [Ok "RUNNING"; Ok "FAILED"] (Ok "COMPLETED")
                                      (Ok "policy"))
                      (Sample.waiting "") 3 initState)))
      <= length (posted (trace initState)) + 3)%nat.
Proof.
  exact (posted_jobs_are_well_formed Sample.lib
           (Sample.cluster [Ok "RUNNING"; Ok "FAILED"] (Ok "COMPLETED") (Ok "policy"))
           (Sample.waiting "") 3 initState (Forall_nil wellFormed)).
Defined.

(** ** The test logger *)

Module LoggerFacts.
Import Logger.

Lemma append_empty s : s ++ "" = s.
Proof. induction s as [| a s IH]; simpl; [| rewrite IH]; reflexivity. Qed.

Lemma lines_cons record records :
  lines (record :: records) = snd record ++ nl ++ lines records.
Proof.
  unfold lines. cbn [map]. destruct (map _ records) as [| l ls] eqn:Hm.
  - cbn [String.concat]. rewrite append_empty. reflexivity.
  - cbn [String.concat append]. rewrite append_assoc. reflexivity.
Qed.

(** X19. What the test logger leaves in its writer is one line per record
    of an unnamed logger, in the order they were logged; a record that
    comes with a prefix, as those of a named logger do, is never written.
    So a run that logs only under a name leaves the writer as it was. *)
Theorem named_loggers_are_silent records w :
  logged records w = w ++ lines (filter unprefixed records)
  /\ (forallb (fun record => negb (unprefixed record)) records = true ->
      logged records w = w).
Proof.
  assert (Hall : forall rs v, logged rs v = v ++ lines (filter unprefixed rs)).
  { induction rs as [| [prefix args] rs IH]; intros v; cbn [logged filter].
    - cbn. symmetry. apply append_empty.
    - unfold write, unprefixed at 1. cbn [fst].
      destruct (String.eqb prefix ""); cbn [negb].
      + rewrite IH, lines_cons. unfold Fprintln. cbn [snd].
        rewrite !append_assoc. reflexivity.
      + apply IH. }
  split; [apply Hall |].
  intros Hnamed. rewrite Hall.
  replace (filter unprefixed records) with (@nil (string * string)).
  - apply append_empty.
  - symmetry. induction records as [| r rs IH]; [reflexivity |].
    cbn [forallb] in Hnamed. apply andb_true_iff in Hnamed as [Hr Hrs].
    cbn [filter]. apply negb_true_iff in Hr. rewrite Hr. apply IH, Hrs.
Qed.

Lemma named_loggers_are_silent_witness :
  logged [("", "uploading"); ("s3", "bucket created"); ("", "done")] "start"
  = "start" ++ lines [("", "uploading"); ("", "done")]
  /\ logged [("s3", "bucket created"); ("sqs", "queue ready")] "start" = "start".
Proof.
  split.
  - exact (proj1 (named_loggers_are_silent
                    [("", "uploading"); ("s3", "bucket created"); ("", "done")]
                    "start")).
  - exact (proj2 (named_loggers_are_silent
                    [("s3", "bucket created"); ("sqs", "queue ready")] "start")
                 eq_refl).
Defined.

End LoggerFacts.

(** ** The checks and the libraries *)

(** X20. The checks consult the libraries only about what is given: two
    libraries that agree on the start-time, the end-time and the namespace
    list whenever the flag is not empty give the same verdict and the same
    arguments. The URL parser is never asked, and with none of the three
    flags given the verdict does not depend on the libraries at all. *)
Theorem library_consulted_only_when_given L L' f :
  (flag_start_time f <> "" ->
   time_Parse L (flag_start_time f) = time_Parse L' (flag_start_time f)) ->
  (flag_end_time f <> "" ->
   time_Parse L (flag_end_time f) = time_Parse L' (flag_end_time f)) ->
  (flag_ns_allow_list f <> "" ->
   json_Unmarshal L (flag_ns_allow_list f) = json_Unmarshal L' (flag_ns_allow_list f)) ->
  validate L f = validate L' f.
Proof.
  intros Hstart Hend Hns. rewrite !validate_checks.
  assert (Hs : checkStartTime L f = checkStartTime L' f).
  { unfold checkStartTime. destruct (String.eqb_spec (flag_start_time f) "");
      [reflexivity | rewrite Hstart by assumption; reflexivity]. }
  assert (Hs' : startTimeOf L f = startTimeOf L' f).
  { unfold startTimeOf. destruct (String.eqb_spec (flag_start_time f) "");
      [reflexivity | rewrite Hstart by assumption; reflexivity]. }
  assert (He : checkEndTime L f = checkEndTime L' f).
  { unfold checkEndTime. rewrite Hs'. destruct (String.eqb_spec (flag_end_time f) "");
      [reflexivity | rewrite Hend by assumption; reflexivity]. }
  assert (Hn : checkNsAllowList L f = checkNsAllowList L' f).
  { unfold checkNsAllowList. destruct (String.eqb_spec (flag_ns_allow_list f) "");
      [reflexivity | rewrite Hns by assumption; reflexivity]. }
  unfold checks. rewrite Hs, He, Hn. reflexivity.
Qed.

Lemma library_consulted_only_when_given_witness :
  validate Sample.lib
    (Sample.request "initial" 0 "k8s-np" "2022-01-01 00:00:00" "" "200m")
  = validate (libKnowingOnly "2022-01-01 00:00:00")
      (Sample.request "initial" 0 "k8s-np" "2022-01-01 00:00:00" "" "200m").
Proof.
  apply library_consulted_only_when_given.
  - intros _. reflexivity.
  - intros Hgiven. exfalso. apply Hgiven. reflexivity.
  - intros Hgiven. exfalso. apply Hgiven. reflexivity.
Defined.
